(** * Tetracycline PK calculator: the computation of [src/App.jsx]

    A shallow embedding of the non-presentation code of the React component
    [TetracyclinePKCalculator] ([parsePoints], [trapezoidalAUC],
    [estimateTerminalK], [handleCalculate]) and the properties its
    specification states about it.

    The handlers of the form and the texts of the block of results are
    embedded as well, with further properties read off the code.

    JavaScript numbers are IEEE-754 binary64 values: they are modelled by
    Rocq's primitive floats, whose operations are the same binary64
    operations (round to nearest, ties to even).  JavaScript strings are
    modelled by [string], one [ascii] per code unit (code units below 256). *)

From Stdlib Require Import ZArith List Bool Ascii String Floats Lia.
From Stdlib Require Import DecimalString.
From Stdlib Require Import Sorting.Sorted Sorting.Permutation.
Import ListNotations.

Set Warnings "-inexact-float".
Local Open Scope float_scope.

(** ** JavaScript primitives used by the component *)

Module JS.

(** [ToBoolean] on a Number: false exactly for [+0], [-0] and [NaN]. *)
Definition truthy (x : float) : bool := (x =? x) && negb (x =? 0).

(** [a || b] on Numbers. *)
Definition or (a b : float) : float := if truthy a then a else b.

(** A Number or [null]. [ToBoolean null] is false. *)
Definition truthy_opt (o : option float) : bool :=
  match o with Some x => truthy x | None => false end.

(** [a || b] where both sides are a Number or [null]. *)
Definition or_opt (a b : option float) : option float :=
  if truthy_opt a then a else b.

(** [arr.length] as a Number. *)
Definition of_nat (n : nat) : float := of_uint63 (Uint63.of_Z (Z.of_nat n)).

(** *** Strings *)

(** WhiteSpace and LineTerminator code units below 256: TAB, LF, VT, FF, CR,
    SP and NBSP. *)
Definition is_ws (a : ascii) : bool :=
  let n := nat_of_ascii a in
  ((9 <=? n) && (n <=? 13) || (n =? 32) || (n =? 160))%nat.

Fixpoint trim_start (s : string) : string :=
  match s with
  | String a r => if is_ws a then trim_start r else s
  | EmptyString => EmptyString
  end.

(** Drops the trailing white space: a character is kept when it is not white
    space or when something is kept after it. *)
Fixpoint trim_end (s : string) : string :=
  match s with
  | EmptyString => EmptyString
  | String a r =>
      match trim_end r with
      | EmptyString => if is_ws a then EmptyString else String a EmptyString
      | r' => String a r'
      end
  end.

(** [String.prototype.trim]. *)
Definition trim (s : string) : string := trim_end (trim_start s).

(** [s.split(sep)] for a one-character separator: the pieces between the
    separators, [[""]] for the empty string. *)
Fixpoint split (sep : ascii) (s : string) : list string :=
  match s with
  | EmptyString => [EmptyString]
  | String a r =>
      if Ascii.eqb a sep then EmptyString :: split sep r
      else match split sep r with
           | p :: ps => String a p :: ps
           | [] => [String a EmptyString]
           end
  end.

(** *** [parseFloat]

    The longest prefix of the string, after its leading white space, that is
    a StrDecimalLiteral (an optional sign, then [Infinity], or decimal digits
    with an optional fraction and an optional exponent) is read and rounded
    to the nearest binary64 value, ties to even; [NaN] when there is no such
    prefix. *)

Definition is_digit (a : ascii) : bool :=
  let n := nat_of_ascii a in ((48 <=? n) && (n <=? 57))%nat.

Definition digit_val (a : ascii) : Z := Z.of_nat (nat_of_ascii a) - 48.

(** Reads decimal digits onto the accumulator [acc]; [n] counts them. *)
Fixpoint read_digits (s : string) (acc n : Z) : Z * Z * string :=
  match s with
  | String a r =>
      if is_digit a then read_digits r (10 * acc + digit_val a)%Z (n + 1)%Z
      else (acc, n, s)
  | EmptyString => (acc, n, s)
  end.

Definition read_sign (s : string) : bool * string :=
  match s with
  | String "-" r => (true, r)
  | String "+" r => (false, r)
  | _ => (false, s)
  end.

(** The ExponentPart, 0 when there is none (an [e] that no digit follows is
    not part of the literal). *)
Definition read_exponent (s : string) : Z :=
  match s with
  | String a r =>
      if Ascii.eqb a "e" || Ascii.eqb a "E" then
        let '(neg, r') := read_sign r in
        let '(v, n, _) := read_digits r' 0 0 in
        if (n =? 0)%Z then 0%Z else if neg then (- v)%Z else v
      else 0%Z
  | EmptyString => 0%Z
  end.

(** The binary64 value nearest to [(-1)^neg * m * 10^e10], for [0 <= m]. *)
Definition round_decimal (neg : bool) (m e10 : Z) : float :=
  if (m =? 0)%Z then (if neg then neg_zero else zero)
  else SF2Prim
    (if (0 <=? e10)%Z
     then binary_normalize prec emax
            ((if neg then - m else m) * 10 ^ e10)%Z 0 false
     else let '(q, e, l) :=
            SFdiv_core_binary prec emax m 0 (10 ^ (- e10))%Z 0 in
          binary_round_aux prec emax neg q e l).

Definition parseFloat (s : string) : float :=
  let '(neg, r) := read_sign (trim_start s) in
  if String.prefix "Infinity" r then (if neg then neg_infinity else infinity)
  else
    let '(m1, n1, r1) := read_digits r 0 0 in
    let '(m, n2, r2) :=
      match r1 with
      | String "." r' => read_digits r' m1 0
      | _ => (m1, 0%Z, r1)
      end in
    if (n1 + n2 =? 0)%Z then nan
    else round_decimal neg m (read_exponent r2 - n2).

(** [parseFloat] of an array element that may be missing: a missing element
    is [undefined], which [parseFloat] first converts to the string
    ["undefined"]. *)
Definition parseFloat_elem (o : option string) : float :=
  match o with
  | Some s => parseFloat s
  | None => parseFloat "undefined"
  end.

(** *** Arrays *)

(** [arr.slice(-n)]: the last [n] elements, all of them when there are
    fewer. *)
Definition slice_last {A} (n : nat) (l : list A) : list A :=
  skipn (List.length l - n) l.

(** [arr.sort(comparefn)].  The sort is stable; a comparator result that is
    [NaN] counts as [+0].  For a consistent comparator every stable sort
    returns the same array, here by insertion: an element goes before the
    first one it compares below.  (For an inconsistent comparator the order
    is implementation-defined, and this is one implementation.) *)
Section Sort.

Context {A : Type} (comparefn : A -> A -> float).

Fixpoint insert (x : A) (l : list A) : list A :=
  match l with
  | [] => [x]
  | y :: l' => if comparefn x y <? 0 then x :: l else y :: insert x l'
  end.

Definition sort (l : list A) : list A :=
  fold_left (fun acc x => insert x acc) l [].

End Sort.

End JS.

(** ** The component *)

Record Point := mkPoint { t : float; c : float }.

Inductive Route := oral | iv.

(** What [setResults] receives. *)
Record Results := mkResults {
  points : list Point;
  auc : float;
  k_from_t12 : option float;
  k_from_cl_vd : option float;
  k_est : option float;
  k : option float;
  t_half : option float;
  aucInf : option float;
  Cmax : float;
  Tmax : float;
  LD : float;
  MD : float;
  MD_rate : float;
  lastC : float
}.

(** The component's state, one field per [useState]. *)
Record State := mkState {
  drugName : string;
  dose : float;
  route : Route;
  F : float;
  Vd : float;
  Cl : float;
  t12 : float;
  ka : float;
  tau : float;
  cssTarget : float;
  pointsCsv : string;
  results : option Results
}.

(** The state of a freshly mounted component. *)
Definition initialState : State :=
  {| drugName := "Tetracycline"; dose := 500; route := oral; F := 0.6;
     Vd := 40; Cl := 4; t12 := 8; ka := 1.2; tau := 12; cssTarget := 2;
     pointsCsv := "0:0,1:2.1,2:3.5,4:2.2,6:1.1,8:0.6"; results := None |}.

(** The setters of [useState] the form calls on a change of its fields. *)
Definition setDose (v : float) (st : State) : State :=
  {| drugName := drugName st; dose := v; route := route st; F := F st;
     Vd := Vd st; Cl := Cl st; t12 := t12 st; ka := ka st; tau := tau st;
     cssTarget := cssTarget st; pointsCsv := pointsCsv st;
     results := results st |}.

Definition setRoute (v : Route) (st : State) : State :=
  {| drugName := drugName st; dose := dose st; route := v; F := F st;
     Vd := Vd st; Cl := Cl st; t12 := t12 st; ka := ka st; tau := tau st;
     cssTarget := cssTarget st; pointsCsv := pointsCsv st;
     results := results st |}.

Definition setF (v : float) (st : State) : State :=
  {| drugName := drugName st; dose := dose st; route := route st; F := v;
     Vd := Vd st; Cl := Cl st; t12 := t12 st; ka := ka st; tau := tau st;
     cssTarget := cssTarget st; pointsCsv := pointsCsv st;
     results := results st |}.

Definition setVd (v : float) (st : State) : State :=
  {| drugName := drugName st; dose := dose st; route := route st; F := F st;
     Vd := v; Cl := Cl st; t12 := t12 st; ka := ka st; tau := tau st;
     cssTarget := cssTarget st; pointsCsv := pointsCsv st;
     results := results st |}.

Definition setCl (v : float) (st : State) : State :=
  {| drugName := drugName st; dose := dose st; route := route st; F := F st;
     Vd := Vd st; Cl := v; t12 := t12 st; ka := ka st; tau := tau st;
     cssTarget := cssTarget st; pointsCsv := pointsCsv st;
     results := results st |}.

Definition setT12 (v : float) (st : State) : State :=
  {| drugName := drugName st; dose := dose st; route := route st; F := F st;
     Vd := Vd st; Cl := Cl st; t12 := v; ka := ka st; tau := tau st;
     cssTarget := cssTarget st; pointsCsv := pointsCsv st;
     results := results st |}.

Definition setKa (v : float) (st : State) : State :=
  {| drugName := drugName st; dose := dose st; route := route st; F := F st;
     Vd := Vd st; Cl := Cl st; t12 := t12 st; ka := v; tau := tau st;
     cssTarget := cssTarget st; pointsCsv := pointsCsv st;
     results := results st |}.

Definition setTau (v : float) (st : State) : State :=
  {| drugName := drugName st; dose := dose st; route := route st; F := F st;
     Vd := Vd st; Cl := Cl st; t12 := t12 st; ka := ka st; tau := v;
     cssTarget := cssTarget st; pointsCsv := pointsCsv st;
     results := results st |}.

Definition setCssTarget (v : float) (st : State) : State :=
  {| drugName := drugName st; dose := dose st; route := route st; F := F st;
     Vd := Vd st; Cl := Cl st; t12 := t12 st; ka := ka st; tau := tau st;
     cssTarget := v; pointsCsv := pointsCsv st; results := results st |}.

Definition setPointsCsv (v : string) (st : State) : State :=
  {| drugName := drugName st; dose := dose st; route := route st; F := F st;
     Vd := Vd st; Cl := Cl st; t12 := t12 st; ka := ka st; tau := tau st;
     cssTarget := cssTarget st; pointsCsv := v; results := results st |}.

(** One segment of the CSV: [const [t, c] = p.split(":").map(x => x.trim())]
    and the two [parseFloat] calls. *)
Definition parseSegment (p : string) : Point :=
  let parts := map JS.trim (JS.split ":" p) in
  {| t := JS.parseFloat_elem (nth_error parts 0);
     c := JS.parseFloat_elem (nth_error parts 1) |}.

(** The comparator of [arr.sort((a, b) => a.t - b.t)]. *)
Definition byTime (a b : Point) : float := t a - t b.

(** [parsePoints].  On a string nothing in the [try] block throws ([split],
    [trim], destructuring and [parseFloat] are total), so the [catch] branch
    is never taken and the function is the [try] block. *)
Definition parsePoints (csv : string) : list Point :=
  let arr := map parseSegment (JS.split "," csv) in
  JS.sort byTime arr.

(** [points[i]]; reading a field of a missing element makes the arithmetic
    that uses it [NaN]. *)
Definition at_ (points : list Point) (i : nat) : Point :=
  nth i points (mkPoint nan nan).

(** The body of the loop of [trapezoidalAUC]. *)
Definition auc_step (points : list Point) (auc : float) (i : nat) : float :=
  let dt := t (at_ points i) - t (at_ points (i - 1)) in
  let avgC := (c (at_ points i) + c (at_ points (i - 1))) / 2 in
  auc + avgC * dt.

(** [trapezoidalAUC]: the loop runs [i] from 1 to [points.length - 1]. *)
Definition trapezoidalAUC (points : list Point) : float :=
  fold_left (auc_step points) (seq 1 (List.length points - 1)) 0.

(** [points.length ? points[points.length - 1].c : 0]. *)
Definition lastConc (points : list Point) : float :=
  match List.length points with
  | O => 0
  | S n => c (at_ points n)
  end.

(** The scan for [Cmax] and [Tmax]: both start at 0, and [forEach] replaces
    them at every sample whose concentration is above [Cmax]. *)
Definition peak_step (s : float * float) (p : Point) : float * float :=
  let '(Cmax, Tmax) := s in if Cmax <? c p then (c p, t p) else (Cmax, Tmax).

Definition peak (points : list Point) : float * float :=
  fold_left peak_step points (0, 0).

(** The body of the regression loop of [estimateTerminalK], on the pair of
    [num] and [den]. *)
Definition regression_step (xs ys : list float) (xbar ybar : float)
    (s : float * float) (i : nat) : float * float :=
  let '(num, den) := s in
  (num + (nth i xs nan - xbar) * (nth i ys nan - ybar),
   den + (nth i xs nan - xbar) * (nth i xs nan - xbar)).

Section Component.

(** [Math.log], which ECMAScript leaves implementation-approximated. *)
Variable Math_log : float -> float.

(** [estimateTerminalK]; [None] is [null]. *)
Definition estimateTerminalK (points : list Point) : option float :=
  let nonzero := filter (fun p => 0 <? c p) points in
  if (List.length nonzero <? 2)%nat then None
  else
    let last := JS.slice_last 4 nonzero in
    let xs := map (fun p => t p) last in
    let ys := map (fun p => Math_log (c p)) last in
    let n := List.length xs in
    let xbar := fold_left (fun a b => a + b) xs 0 / JS.of_nat n in
    let ybar := fold_left (fun a b => a + b) ys 0 / JS.of_nat n in
    let '(num, den) :=
      fold_left (regression_step xs ys xbar ybar) (seq 0 n) (0, 0) in
    if den =? 0 then None
    else
      let slope := num / den in
      let k := - slope in
      if 0 <? k then Some k else None.

(** The record [handleCalculate] passes to [setResults]. *)
Definition calculate (st : State) : Results :=
  let points := parsePoints (pointsCsv st) in
  let auc := trapezoidalAUC points in
  let k_from_t12 :=
    if JS.truthy (t12 st) then Some (0.693 / t12 st) else None in
  let k_from_cl_vd :=
    if JS.truthy (Cl st) && JS.truthy (Vd st) then Some (Cl st / Vd st)
    else None in
  let k_est := estimateTerminalK points in
  let k :=
    JS.or_opt (JS.or_opt (JS.or_opt k_est k_from_cl_vd) k_from_t12) None in
  let t_half :=
    match k with
    | Some kv => if JS.truthy kv then Some (0.693 / kv) else None
    | None => None
    end in
  let lastC := lastConc points in
  let aucInf :=
    match k with
    | Some kv => if JS.truthy kv then Some (auc + lastC / kv) else None
    | None => None
    end in
  let '(Cmax, Tmax) := peak points in
  let LD := (cssTarget st * Vd st) / JS.or (F st) 1 in
  let MD_rate :=
    cssTarget st
    * JS.or (Cl st)
        (match k with
         | Some kv =>
             if JS.truthy kv && JS.truthy (Vd st) then kv * Vd st else 0
         | None => 0
         end) in
  let MD := MD_rate * JS.or (tau st) 1 / JS.or (F st) 1 in
  {| points := points; auc := auc; k_from_t12 := k_from_t12;
     k_from_cl_vd := k_from_cl_vd; k_est := k_est; k := k; t_half := t_half;
     aucInf := aucInf; Cmax := Cmax; Tmax := Tmax; LD := LD; MD := MD;
     MD_rate := MD_rate; lastC := lastC |}.

(** [handleCalculate]: the state after the submission. *)
Definition handleCalculate (st : State) : State :=
  {| drugName := drugName st; dose := dose st; route := route st; F := F st;
     Vd := Vd st; Cl := Cl st; t12 := t12 st; ka := ka st; tau := tau st;
     cssTarget := cssTarget st; pointsCsv := pointsCsv st;
     results := Some (calculate st) |}.

End Component.

(** ** A reference [Math.log]

    The development is parametric in [Math.log]; this instance (argument
    reduction to [[sqrt 1/2, sqrt 2]] and the series of [2 atanh]) serves to
    run the component on concrete inputs. *)

Definition float_of_Z (z : Z) : float :=
  match z with
  | Z0 => 0
  | Zpos _ => of_uint63 (Uint63.of_Z z)
  | Zneg _ => - of_uint63 (Uint63.of_Z (- z))
  end.

Definition ref_log (x : float) : float :=
  if is_nan x || (x <? 0) then nan
  else if x =? 0 then neg_infinity
  else if x =? infinity then infinity
  else
    let '(m, e) := FloatOps.Z.frexp x in
    let '(m, e) :=
      if m <? 0.7071067811865476 then (m * 2, (e - 1)%Z) else (m, e) in
    let s := (m - 1) / (m + 1) in
    let z := s * s in
    let p := fold_right (fun d acc => 1 / d + z * acc) 0
               [1; 3; 5; 7; 9; 11; 13; 15; 17; 19; 21; 23; 25; 27] in
    float_of_Z e * 0.6931471805599453 + 2 * s * p.

(** ** Definitions the properties are stated with *)

(** [Math.LN2], the binary64 value nearest to ln 2. *)
Definition Math_LN2 : float := 0.6931471805599453.

(** The first candidate that is defined, in the order given. *)
Fixpoint first_defined (l : list (option float)) : option float :=
  match l with
  | [] => None
  | Some x :: _ => Some x
  | None :: r => first_defined r
  end.

(** The first candidate that is defined and truthy (neither 0 nor NaN). *)
Fixpoint first_truthy (l : list (option float)) : option float :=
  match l with
  | [] => None
  | o :: r => if JS.truthy_opt o then o else first_truthy r
  end.

(** The areas of the trapezoids between consecutive samples. *)
Fixpoint pair_areas (points : list Point) : list float :=
  match points with
  | p :: (q :: _) as rest => (c q + c p) / 2 * (t q - t p) :: pair_areas rest
  | _ => []
  end.

(** Left-to-right sum from 0. *)
Definition sum (l : list float) : float := fold_left add l 0.

Definition mean (l : list float) : float := sum l / JS.of_nat (List.length l).

(** The last [n] elements of a list, fewer when the list is shorter. *)
Definition last_n {A} (n : nat) (l : list A) : list A := rev (firstn n (rev l)).

(** Ordinary least squares of [y] against [x] over a list of pairs: the sum
    of the products of deviations and the sum of the squared deviations of
    [x] (the slope is their quotient). *)
Definition ols_sums (xys : list (float * float)) : float * float :=
  let xbar := mean (map fst xys) in
  let ybar := mean (map snd xys) in
  (sum (map (fun xy => (fst xy - xbar) * (snd xy - ybar)) xys),
   sum (map (fun xy => (fst xy - xbar) * (fst xy - xbar)) xys)).

(** The terminal-slope candidate as the specification words it. *)
Definition terminal_slope_spec (log : float -> float) (points : list Point)
  : option float :=
  let positive := filter (fun p => 0 <? c p) points in
  if (List.length positive <? 2)%nat then None
  else
    let window := last_n 4 positive in
    let '(num, den) := ols_sums (map (fun p => (t p, log (c p))) window) in
    if den =? 0 then None
    else if 0 <? - (num / den) then Some (- (num / den)) else None.

Definition isNumber (x : float) : bool := negb (is_nan x).

(** A sample whose concentration is a number that no sample of the sequence
    exceeds, and the first such sample. *)
Definition is_max (points : list Point) (p : Point) : bool :=
  isNumber (c p) && forallb (fun q => negb (c p <? c q)) points.

Definition first_max (points : list Point) : option Point :=
  find (is_max points) points.

(** A string of white space only; a string without a given character. *)
Fixpoint all_ws (s : string) : bool :=
  match s with
  | EmptyString => true
  | String a r => JS.is_ws a && all_ws r
  end.

Fixpoint lacks (x : ascii) (s : string) : bool :=
  match s with
  | EmptyString => true
  | String a r => negb (Ascii.eqb a x) && lacks x r
  end.

(** The segments joined by a separator. *)
Fixpoint join (sep : ascii) (l : list string) : string :=
  match l with
  | [] => EmptyString
  | [s] => s
  | s :: r => (s ++ String sep (join sep r))%string
  end.

(** The samples at a given time. *)
Definition same_time (v : float) (p : Point) : bool := t p =? v.

(** Order of samples by time, and samples whose time is a number. *)
Definition time_le (a b : Point) : Prop := (t a <=? t b) = true.

Definition timed (p : Point) : Prop := is_nan (t p) = false.

(** A text that begins, after white space and an optional sign, with a
    decimal literal: [Infinity], a digit, or a dot and a digit. *)
Definition starts_with_digit (s : string) : bool :=
  match s with
  | String a _ => JS.is_digit a
  | EmptyString => false
  end.

Definition has_literal (s : string) : bool :=
  let r := snd (JS.read_sign (JS.trim_start s)) in
  String.prefix "Infinity" r
  || starts_with_digit r
  || match r with
     | String "." r' => starts_with_digit r'
     | _ => false
     end.

(** A CSV text is well formed when every segment has a colon and its first
    two colon-separated tokens, trimmed, begin with a decimal literal. *)
Definition wellFormedSegment (p : string) : bool :=
  match map JS.trim (JS.split ":" p) with
  | a :: b :: _ => has_literal a && has_literal b
  | _ => false
  end.

Definition wellFormed (csv : string) : bool :=
  forallb wellFormedSegment (JS.split "," csv).

(** A sample whose time and concentration are numbers. *)
Definition numeric (p : Point) : bool := isNumber (t p) && isNumber (c p).

(** The image of a binary64 number in the integers, in units of the least
    positive number [2^-1074]; infinities lie beyond every finite number.
    It is monotone, which reduces the order of numbers to that of [Z]. *)
Definition ord (x : spec_float) : Z :=
  match x with
  | S754_zero _ | S754_nan => 0
  | S754_infinity s => cond_Zopp s (2 ^ 2098)
  | S754_finite s m e => cond_Zopp s (Zpos m * 2 ^ (e + 1074))
  end.

Definition ordZ (x : float) : Z := ord (Prim2SF x).

(** ** The form: its handlers and what it displays *)

Module JSNum.

(** *** [ToNumber] of a string (the unary [+] of the handlers)

    The string, without the white space at its ends, must be empty (the
    result is 0) or be, as a whole, a decimal literal as of [parseFloat] or a
    binary, octal or hexadecimal integer literal; otherwise the result is
    NaN. *)

(** The ExponentPart and what follows it. *)
Definition read_exponent_rest (s : string) : Z * string :=
  match s with
  | String a r =>
      if Ascii.eqb a "e" || Ascii.eqb a "E" then
        let '(neg, r') := JS.read_sign r in
        let '(v, n, rest) := JS.read_digits r' 0 0 in
        if (n =? 0)%Z then (0%Z, s) else (if neg then (- v)%Z else v, rest)
      else (0%Z, s)
  | EmptyString => (0%Z, s)
  end.

(** The value of a digit in a base up to 16, if it is one. *)
Definition digit_in (base : Z) (a : ascii) : option Z :=
  let n := Z.of_nat (nat_of_ascii a) in
  let v :=
    if ((48 <=? n) && (n <=? 57))%Z then (n - 48)%Z
    else if ((97 <=? n) && (n <=? 102))%Z then (n - 87)%Z
    else if ((65 <=? n) && (n <=? 70))%Z then (n - 55)%Z
    else 16%Z in
  if (v <? base)%Z then Some v else None.

(** The integer a string of digits of a base denotes; [None] when the string
    has another character. *)
Fixpoint read_integer (base : Z) (s : string) (acc : Z) : option Z :=
  match s with
  | EmptyString => Some acc
  | String a r =>
      match digit_in base a with
      | Some v => read_integer base r (base * acc + v)%Z
      | None => None
      end
  end.

Definition integer_literal (base : Z) (digits : string) : float :=
  match digits with
  | EmptyString => nan
  | _ =>
      match read_integer base digits 0 with
      | Some n => SF2Prim (binary_normalize prec emax n 0 false)
      | None => nan
      end
  end.

Definition decimal_literal (s : string) : float :=
  let '(neg, r) := JS.read_sign s in
  if String.eqb r "Infinity" then (if neg then neg_infinity else infinity)
  else
    let '(m1, n1, r1) := JS.read_digits r 0 0 in
    let '(m, n2, r2) :=
      match r1 with
      | String "." r' => JS.read_digits r' m1 0
      | _ => (m1, 0%Z, r1)
      end in
    if (n1 + n2 =? 0)%Z then nan
    else
      let '(e, rest) := read_exponent_rest r2 in
      match rest with
      | EmptyString => JS.round_decimal neg m (e - n2)
      | _ => nan
      end.

Definition toNumber (s : string) : float :=
  match JS.trim s with
  | EmptyString => 0
  | String "0" (String "x" d) | String "0" (String "X" d) =>
      integer_literal 16 d
  | String "0" (String "o" d) | String "0" (String "O" d) =>
      integer_literal 8 d
  | String "0" (String "b" d) | String "0" (String "B" d) =>
      integer_literal 2 d
  | s' => decimal_literal s'
  end.

End JSNum.

Module JSFmt.

(** *** Text of numbers *)

Local Open Scope string_scope.

(** The decimal digits of a natural number, ["0"] for 0. *)
Definition digits (n : Z) : string :=
  NilZero.string_of_uint (N.to_uint (Z.to_N n)).

Fixpoint zeros (n : nat) : string :=
  match n with
  | O => ""
  | S n' => String "0" (zeros n')
  end.

Fixpoint take (n : nat) (s : string) : string :=
  match n, s with
  | S n', String a r => String a (take n' r)
  | _, _ => ""
  end.

Fixpoint drop (n : nat) (s : string) : string :=
  match n, s with
  | S n', String _ r => drop n' r
  | _, _ => s
  end.

(** The sign and the magnitude [m * 2^e] of a finite number; a zero of
    either sign has the magnitude 0 and no sign. *)
Definition magnitude (x : float) : option (bool * Z * Z) :=
  match Prim2SF x with
  | S754_zero _ => Some (false, 0%Z, 0%Z)
  | S754_finite s m e => Some (s, Zpos m, e)
  | _ => None
  end.

(** [m * 2^e] as a fraction, and times a power of ten. *)
Definition fraction (m e : Z) : Z * Z :=
  if (0 <=? e)%Z then (m * 2 ^ e, 1)%Z else (m, 2 ^ (- e))%Z.

Definition scale10 (q : Z * Z) (j : Z) : Z * Z :=
  let '(num, den) := q in
  if (0 <=? j)%Z then (num * 10 ^ j, den)%Z else (num, den * 10 ^ (- j))%Z.

(** [Number::toString] of a positive finite number: the least [n] with
    [x < 10^n], then the fewest digits [s] (there are [k] of them) for which
    [s * 10^(n-k)] reads back as [x], the nearest to [x] when several do. *)
Fixpoint decimal_exponent (fuel : nat) (q : Z * Z) (n : Z) : Z :=
  match fuel with
  | O => n
  | S fuel' =>
      let '(num, den) := scale10 q (- n) in
      if (num <? den)%Z then n else decimal_exponent fuel' q (n + 1)
  end.

Fixpoint shortest (fuel : nat) (x : float) (q : Z * Z) (n k : Z)
  : Z * Z * Z :=
  let '(num, den) := scale10 q (k - n) in
  let lo := (num / den)%Z in
  let r := (num mod den)%Z in
  let hi := (lo + 1)%Z in
  let ok_lo := PrimFloat.eqb (JS.round_decimal false lo (n - k)) x in
  let ok_hi := PrimFloat.eqb (JS.round_decimal false hi (n - k)) x in
  let use_hi :=
    ok_hi && (negb ok_lo || (den <? 2 * r)%Z
              || ((den =? 2 * r)%Z && Z.even hi)) in
  match fuel with
  | O => (lo, k, n)
  | S fuel' =>
      if use_hi then
        if (hi =? 10 ^ k)%Z then (10 ^ (k - 1), k, n + 1)%Z else (hi, k, n)
      else if ok_lo then (lo, k, n)
      else shortest fuel' x q n (k + 1)
  end.

Definition positive_toString (x : float) (m e : Z) : string :=
  let q := fraction m e in
  let n0 := decimal_exponent 700 q (-324) in
  let '(s, k, n) := shortest 17 x q n0 1 in
  let ds := digits s in
  if ((k <=? n) && (n <=? 21))%Z then ds ++ zeros (Z.to_nat (n - k))
  else if ((0 <? n) && (n <=? 21))%Z then
    take (Z.to_nat n) ds ++ "." ++ drop (Z.to_nat n) ds
  else if ((-6 <? n) && (n <=? 0))%Z then
    "0." ++ zeros (Z.to_nat (- n)) ++ ds
  else
    let ex := (n - 1)%Z in
    let etext := (if (ex <? 0)%Z then "-" else "+") ++ digits (Z.abs ex) in
    if (k =? 1)%Z then ds ++ "e" ++ etext
    else take 1 ds ++ "." ++ drop 1 ds ++ "e" ++ etext.

(** [Number::toString] in base ten. *)
Definition toString (x : float) : string :=
  if is_nan x then "NaN"
  else if PrimFloat.eqb x infinity then "Infinity"
  else if PrimFloat.eqb x neg_infinity then "-Infinity"
  else
    match magnitude x with
    | Some (s, m, e) =>
        if (m =? 0)%Z then "0"
        else (if s then "-" else "") ++ positive_toString (abs x) m e
    | None => "NaN"
    end.

(** [x.toFixed(f)] for [0 <= f <= 100]: the integer [n] nearest to
    [x * 10^f], the greater one of two, written with [f] digits after the
    point; the text of [toString] for a number that is not finite or not
    below [10^21]. *)
Definition toFixed (x : float) (f : nat) : string :=
  match magnitude x with
  | None => toString x
  | Some (s, m, e) =>
      let '(num, den) := fraction m e in
      let sign := if s then "-" else "" in
      if (10 ^ 21 * den <=? num)%Z then sign ++ toString (abs x)
      else
        let '(num, den) := scale10 (num, den) (Z.of_nat f) in
        let n := ((2 * num + den) / (2 * den))%Z in
        let ds := digits n in
        let ds := zeros (f + 1 - String.length ds) ++ ds in
        let k := String.length ds in
        sign ++ take (k - f) ds
        ++ match f with
           | O => ""
           | _ => "." ++ drop (k - f) ds
           end
  end.

End JSFmt.

(** *** What the results block shows *)

(** [v ? v.toFixed(f) : "-"] for a Number or [null]. *)
Definition fixedOrDash (v : option float) (f : nat) : string :=
  match v with
  | Some x => if JS.truthy x then JSFmt.toFixed x f else "-"
  | None => "-"
  end.

(** The texts interpolated into the list of results. *)
Record Display := mkDisplay {
  shown_k_from_t12 : string;
  shown_k_from_cl_vd : string;
  shown_k_est : string;
  shown_k : string;
  shown_t_half : string;
  shown_auc : string;
  shown_aucInf : string;
  shown_Cmax : string;
  shown_Tmax : string;
  shown_LD : string;
  shown_MD : string
}.

Definition display (r : Results) : Display :=
  {| shown_k_from_t12 := fixedOrDash (k_from_t12 r) 4;
     shown_k_from_cl_vd := fixedOrDash (k_from_cl_vd r) 4;
     shown_k_est := fixedOrDash (k_est r) 4;
     shown_k := fixedOrDash (k r) 4;
     shown_t_half := fixedOrDash (t_half r) 2;
     shown_auc := JSFmt.toFixed (auc r) 3;
     shown_aucInf := fixedOrDash (aucInf r) 3;
     shown_Cmax := JSFmt.toFixed (Cmax r) 3;
     shown_Tmax := JSFmt.toString (Tmax r);
     shown_LD := JSFmt.toFixed (LD r) 1;
     shown_MD := JSFmt.toFixed (MD r) 1 |}.

(** [results && (...)]: nothing is shown before the first submission. *)
Definition render (st : State) : option Display :=
  option_map display (results st).

(** *** The events of the form *)

(** [setResults]. *)
Definition setResults (v : option Results) (st : State) : State :=
  {| drugName := drugName st; dose := dose st; route := route st; F := F st;
     Vd := Vd st; Cl := Cl st; t12 := t12 st; ka := ka st; tau := tau st;
     cssTarget := cssTarget st; pointsCsv := pointsCsv st; results := v |}.

(** A change of a field, with the [e.target.value] of the event, or the
    submission of the form. *)
Inductive Event :=
| ChangeDose (value : string)
| ChangeRoute (value : Route)
| ChangeF (value : string)
| ChangeVd (value : string)
| ChangeCl (value : string)
| ChangeT12 (value : string)
| ChangeKa (value : string)
| ChangeTau (value : string)
| ChangeCssTarget (value : string)
| ChangePointsCsv (value : string)
| Submit.

(** The [onChange] handlers ([(e) => setF(+e.target.value)] and the like) and
    [onSubmit]. *)
Definition handle (Math_log : float -> float) (st : State) (ev : Event)
  : State :=
  match ev with
  | ChangeDose v => setDose (JSNum.toNumber v) st
  | ChangeRoute v => setRoute v st
  | ChangeF v => setF (JSNum.toNumber v) st
  | ChangeVd v => setVd (JSNum.toNumber v) st
  | ChangeCl v => setCl (JSNum.toNumber v) st
  | ChangeT12 v => setT12 (JSNum.toNumber v) st
  | ChangeKa v => setKa (JSNum.toNumber v) st
  | ChangeTau v => setTau (JSNum.toNumber v) st
  | ChangeCssTarget v => setCssTarget (JSNum.toNumber v) st
  | ChangePointsCsv v => setPointsCsv v st
  | Submit => handleCalculate Math_log st
  end.

Definition run (Math_log : float -> float) (evs : list Event) (st : State)
  : State :=
  fold_left (handle Math_log) evs st.

Definition is_submit (ev : Event) : bool :=
  match ev with Submit => true | _ => false end.

(** ** Predicates of the further statements *)

(** A number that is not below zero: positive, a zero, or NaN. *)
Definition not_negative (x : float) : Prop := (x <? 0) = false.

(** The numbers that are not below zero, in the specification of binary64. *)
Definition SFnn (x : spec_float) : Prop :=
  match x with
  | S754_infinity true | S754_finite true _ _ => False
  | _ => True
  end.

(** What holds of the scan's state after the samples [done]. *)
Definition peak_inv (s : float * float) (done : list Point) : Prop :=
  (0 <=? fst s) = true
  /\ Forall (fun q => (fst s <? c q) = false) done
  /\ (s = (0, 0) \/ exists p, In p done /\ s = (c p, t p)).

(** A sample whose time or concentration is NaN. *)
Definition broken (p : Point) : Prop :=
  is_nan (t p) = true \/ is_nan (c p) = true.

(** A string of decimal digits only. *)
Fixpoint all_digits (s : string) : bool :=
  match s with
  | EmptyString => true
  | String a r => JS.is_digit a && all_digits r
  end.

(** A number below [10^21] in magnitude: what [toFixed] writes without an
    exponent. *)
Definition plain (x : float) : Prop := (abs x <? 1e21) = true.

(** A text in fixed notation with [f] digits after the point: an optional
    minus sign, one digit or more, then the point and [f] digits, or no point
    when [f] is zero. *)
Definition fixed_text (f : nat) (s : string) : Prop :=
  exists sign int frac : string,
    s = (sign ++ int ++ match f with O => "" | _ => "." ++ frac end)%string
    /\ (sign = ""%string \/ sign = "-"%string)
    /\ starts_with_digit int = true
    /\ all_digits int = true
    /\ all_digits frac = true
    /\ String.length frac = f.

(** ** The order of binary64 numbers *)

Module FloatOrder.

Lemma digits2_pos_size (p : positive) : digits2_pos p = Pos.size p.
Proof. induction p; simpl; congruence. Qed.

Lemma digits2_pos_bounds (p : positive) :
  (2 ^ (Zpos (digits2_pos p) - 1) <= Zpos p < 2 ^ Zpos (digits2_pos p))%Z.
Proof.
  rewrite digits2_pos_size.
  pose proof (Pos.size_gt p) as Hgt.
  pose proof (Pos.size_le p) as Hle.
  apply Pos2Z.pos_lt_pos in Hgt. apply Pos2Z.pos_le_pos in Hle.
  rewrite Pos2Z.inj_pow in Hgt, Hle.
  assert (Hp : (2 ^ Zpos (Pos.size p) = 2 * 2 ^ (Zpos (Pos.size p) - 1))%Z).
  { rewrite <- (Z.pow_succ_r 2 (Zpos (Pos.size p) - 1)) by lia. f_equal. lia. }
  change (Zpos p~0) with (2 * Zpos p)%Z in Hle. lia.
Qed.

Lemma valid_finite_bounds (s : bool) (m : positive) (e : Z) :
  valid_binary (S754_finite s m e) = true ->
  (-1074 <= e <= 971 /\ Zpos m < 2 ^ 53 /\ (-1074 < e -> 2 ^ 52 <= Zpos m))%Z.
Proof.
  unfold valid_binary, bounded, canonical_mantissa, fexp, SpecFloat.emin.
  change prec with 53%Z; change emax with 1024%Z.
  intros H. apply andb_prop in H. destruct H as [Hc He].
  apply Z.eqb_eq in Hc. apply Z.leb_le in He.
  pose proof (digits2_pos_bounds m) as [Hlo Hhi].
  set (d := Zpos (digits2_pos m)) in *.
  assert (Hd : (d <= 53)%Z) by lia.
  repeat split; try lia.
  - eapply Z.lt_le_trans; [exact Hhi|]. apply Z.pow_le_mono_r; lia.
  - intros Hgt. assert (d = 53%Z) by lia. subst d. rewrite H in Hlo. exact Hlo.
Qed.

Lemma finite_mag_pos (m : positive) (e : Z) :
  (-1074 <= e -> 0 < Zpos m * 2 ^ (e + 1074))%Z.
Proof. intros. apply Z.mul_pos_pos; [lia | apply Z.pow_pos_nonneg; lia]. Qed.

Lemma finite_mag_top (s : bool) (m : positive) (e : Z) :
  valid_binary (S754_finite s m e) = true ->
  (Zpos m * 2 ^ (e + 1074) < 2 ^ 2098)%Z.
Proof.
  intros Hv. apply valid_finite_bounds in Hv. destruct Hv as (He & Hm & _).
  assert (Hp : (2 ^ (e + 1074) <= 2 ^ 2045)%Z) by (apply Z.pow_le_mono_r; lia).
  assert (H0 : (0 < 2 ^ (e + 1074))%Z) by (apply Z.pow_pos_nonneg; lia).
  replace (2 ^ 2098)%Z with (2 ^ 53 * 2 ^ 2045)%Z
    by (rewrite <- Z.pow_add_r by lia; reflexivity).
  apply Z.le_lt_trans with (Zpos m * 2 ^ 2045)%Z.
  - apply Z.mul_le_mono_nonneg_l; lia.
  - apply Z.mul_lt_mono_pos_r; [apply Z.pow_pos_nonneg; lia | exact Hm].
Qed.

Lemma finite_mag_lt (s1 s2 : bool) (m1 m2 : positive) (e1 e2 : Z) :
  valid_binary (S754_finite s1 m1 e1) = true ->
  valid_binary (S754_finite s2 m2 e2) = true ->
  (e1 < e2)%Z ->
  (Zpos m1 * 2 ^ (e1 + 1074) < Zpos m2 * 2 ^ (e2 + 1074))%Z.
Proof.
  intros H1 H2 Hlt.
  apply valid_finite_bounds in H1, H2.
  destruct H1 as (He1 & Hm1 & _), H2 as (He2 & _ & Hm2).
  specialize (Hm2 ltac:(lia)).
  replace (e2 + 1074)%Z with ((e1 + 1074) + (e2 - e1))%Z by lia.
  rewrite (Z.pow_add_r 2 (e1 + 1074) (e2 - e1)) by lia.
  assert (H0 : (0 < 2 ^ (e1 + 1074))%Z) by (apply Z.pow_pos_nonneg; lia).
  assert (Hd : (2 ^ 1 <= 2 ^ (e2 - e1))%Z) by (apply Z.pow_le_mono_r; lia).
  change (2 ^ 1)%Z with 2%Z in Hd.
  assert (H53 : (2 ^ 53 = 2 ^ 52 * 2)%Z) by reflexivity.
  rewrite H53 in Hm1. clear H53.
  set (P := (2 ^ (e1 + 1074))%Z) in *. set (D := (2 ^ (e2 - e1))%Z) in *.
  set (T := (2 ^ 52)%Z) in *.
  assert (Zpos m1 * P < T * 2 * P)%Z by (apply Z.mul_lt_mono_pos_r; lia).
  assert (T * 2 * P <= Zpos m2 * D * P)%Z.
  { apply Z.mul_le_mono_nonneg_r; [lia|].
    apply Z.mul_le_mono_nonneg; lia. }
  lia.
Qed.

(** On valid numbers the IEEE comparison is the comparison of [ord]. *)
Lemma SFcompare_ord (x y : spec_float) :
  valid_binary x = true -> valid_binary y = true ->
  x <> S754_nan -> y <> S754_nan ->
  SFcompare x y = Some (ord x ?= ord y)%Z.
Proof.
  intros Hx Hy Nx Ny.
  assert (Htop : (0 < 2 ^ 2098)%Z) by (apply Z.pow_pos_nonneg; lia).
  destruct x as [sx|sx| |sx mx ex], y as [sy|sy| |sy my ey];
    try congruence; cbn [SFcompare ord].
  - reflexivity.
  - destruct sy; cbn [cond_Zopp]; f_equal; symmetry;
      first [apply Z.compare_eq_iff | apply Z.compare_lt_iff
            | apply Z.compare_gt_iff]; lia.
  - pose proof (valid_finite_bounds _ _ _ Hy) as (He & _).
    pose proof (finite_mag_pos my ey ltac:(lia)).
    destruct sy; cbn [cond_Zopp]; f_equal; symmetry;
      first [apply Z.compare_eq_iff | apply Z.compare_lt_iff
            | apply Z.compare_gt_iff]; lia.
  - destruct sx; cbn [cond_Zopp]; f_equal; symmetry;
      first [apply Z.compare_eq_iff | apply Z.compare_lt_iff
            | apply Z.compare_gt_iff]; lia.
  - destruct sx, sy; cbn [cond_Zopp]; f_equal; symmetry;
      first [apply Z.compare_eq_iff | apply Z.compare_lt_iff
            | apply Z.compare_gt_iff]; lia.
  - pose proof (valid_finite_bounds _ _ _ Hy) as (He & _).
    pose proof (finite_mag_pos my ey ltac:(lia)).
    pose proof (finite_mag_top _ _ _ Hy).
    destruct sx, sy; cbn [cond_Zopp]; f_equal; symmetry;
      first [apply Z.compare_eq_iff | apply Z.compare_lt_iff
            | apply Z.compare_gt_iff]; lia.
  - pose proof (valid_finite_bounds _ _ _ Hx) as (He & _).
    pose proof (finite_mag_pos mx ex ltac:(lia)).
    destruct sx; cbn [cond_Zopp]; f_equal; symmetry;
      first [apply Z.compare_eq_iff | apply Z.compare_lt_iff
            | apply Z.compare_gt_iff]; lia.
  - pose proof (valid_finite_bounds _ _ _ Hx) as (He & _).
    pose proof (finite_mag_pos mx ex ltac:(lia)).
    pose proof (finite_mag_top _ _ _ Hx).
    destruct sx, sy; cbn [cond_Zopp]; f_equal; symmetry;
      first [apply Z.compare_eq_iff | apply Z.compare_lt_iff
            | apply Z.compare_gt_iff]; lia.
  - pose proof (valid_finite_bounds _ _ _ Hx) as (Hex & _).
    pose proof (valid_finite_bounds _ _ _ Hy) as (Hey & _).
    pose proof (finite_mag_pos mx ex ltac:(lia)) as Px.
    pose proof (finite_mag_pos my ey ltac:(lia)) as Py.
    destruct sx, sy; cbn [cond_Zopp]; f_equal.
    + rewrite Z.compare_opp.
      destruct (Z.compare_spec ex ey) as [E|L|G].
      * subst ey. rewrite <- Zmult_compare_compat_r
          by (apply Z.lt_gt, Z.pow_pos_nonneg; lia).
        change (Zpos my ?= Zpos mx)%Z with (Pos.compare my mx).
        rewrite (Pos.compare_antisym mx my). reflexivity.
      * symmetry. apply Z.compare_gt_iff.
        apply (finite_mag_lt _ _ _ _ _ _ Hx Hy L).
      * symmetry. apply Z.compare_lt_iff.
        apply (finite_mag_lt _ _ _ _ _ _ Hy Hx G).
    + symmetry. apply Z.compare_lt_iff. lia.
    + symmetry. apply Z.compare_gt_iff. lia.
    + destruct (Z.compare_spec ex ey) as [E|L|G].
      * subst ey. rewrite <- Zmult_compare_compat_r
          by (apply Z.lt_gt, Z.pow_pos_nonneg; lia).
        reflexivity.
      * symmetry. apply Z.compare_lt_iff.
        apply (finite_mag_lt _ _ _ _ _ _ Hx Hy L).
      * symmetry. apply Z.compare_gt_iff.
        apply (finite_mag_lt _ _ _ _ _ _ Hy Hx G).
Qed.

(** *** Rounding keeps the sign *)

Lemma shr_1_div2 (mrs : shr_record) :
  (0 <= shr_m mrs)%Z -> shr_m (shr_1 mrs) = Z.div2 (shr_m mrs).
Proof.
  destruct mrs as [m r s]. cbn [shr_m shr_1].
  destruct m as [|[p|p|]|p]; intros H; try reflexivity; lia.
Qed.

Lemma iter_shr_1 (p : positive) : forall mrs,
  (0 <= shr_m mrs)%Z ->
  shr_m (iter_pos shr_1 p mrs) = (shr_m mrs / 2 ^ Zpos p)%Z.
Proof.
  assert (Hstep : forall mrs, (0 <= shr_m mrs)%Z ->
            shr_m (shr_1 mrs) = (shr_m mrs / 2)%Z
            /\ (0 <= shr_m (shr_1 mrs))%Z).
  { intros mrs H. rewrite shr_1_div2 by exact H. rewrite Z.div2_div.
    split; [reflexivity | apply Z.div_pos; lia]. }
  induction p as [p IH|p IH|]; intros mrs H; cbn [iter_pos];
    try assert (Hpp : (0 < 2 ^ Zpos p)%Z) by (apply Z.pow_pos_nonneg; lia).
  - destruct (Hstep mrs H) as [E1 N1].
    assert (N2 : (0 <= shr_m (iter_pos shr_1 p (shr_1 mrs)))%Z).
    { rewrite IH by exact N1. apply Z.div_pos; [lia|].
      apply Z.pow_pos_nonneg; lia. }
    rewrite IH by exact N2. rewrite IH by exact N1. rewrite E1.
    rewrite !Z.div_div by lia.
    f_equal. replace (Zpos p~1) with (1 + Zpos p + Zpos p)%Z by lia.
    rewrite !Z.pow_add_r by lia. change (2 ^ 1)%Z with 2%Z. lia.
  - assert (N2 : (0 <= shr_m (iter_pos shr_1 p mrs))%Z).
    { rewrite IH by exact H. apply Z.div_pos; [lia|].
      apply Z.pow_pos_nonneg; lia. }
    rewrite IH by exact N2. rewrite IH by exact H.
    rewrite Z.div_div by lia.
    f_equal. rewrite Pos2Z.inj_xO.
    rewrite <- Z.pow_add_r by lia. f_equal. lia.
  - destruct (Hstep mrs H) as [E1 _]. rewrite E1. reflexivity.
Qed.

Lemma shr_m_of_loc (m : Z) (l : location) : shr_m (shr_record_of_loc m l) = m.
Proof. destruct l as [|[| |]]; reflexivity. Qed.

Lemma shr_fexp_pos (m e : Z) (l : location) :
  (0 < m)%Z -> (-1074 <= e)%Z ->
  (0 < shr_m (fst (shr_fexp prec emax m e l)))%Z
  /\ (-1074 <= snd (shr_fexp prec emax m e l))%Z.
Proof.
  intros Hm He. destruct m as [|m|m]; try lia.
  unfold shr_fexp, shr, fexp, SpecFloat.emin. cbn [Zdigits2].
  change prec with 53%Z; change emax with 1024%Z.
  pose proof (digits2_pos_bounds m) as [Hlo _].
  set (d := Zpos (digits2_pos m)) in *.
  destruct (Z.max (d + e - 53) (3 - 1024 - 53) - e)%Z as [|p|p] eqn:En;
    cbn [fst snd]; rewrite ?shr_m_of_loc; try (split; lia).
  rewrite iter_shr_1 by (rewrite shr_m_of_loc; lia).
  rewrite shr_m_of_loc. split; [|lia].
  apply Z.div_str_pos. split; [apply Z.pow_pos_nonneg; lia|].
  eapply Z.le_trans; [|exact Hlo]. apply Z.pow_le_mono_r; lia.
Qed.

Lemma round_nearest_even_pos (m : Z) (l : location) :
  (0 < m)%Z -> (0 < round_nearest_even m l)%Z.
Proof.
  intros H. destruct l as [|[| |]]; cbn [round_nearest_even]; try lia.
  destruct (Z.even m); lia.
Qed.

(** Rounding a nonzero magnitude at an exponent that is not below the least
    one gives a nonzero number or an infinity, of the sign asked for. *)
Lemma binary_round_aux_sign (sx : bool) (m e : Z) (l : location) :
  (0 < m)%Z -> (-1074 <= e)%Z ->
  (exists m' e', binary_round_aux prec emax sx m e l = S754_finite sx m' e')
  \/ binary_round_aux prec emax sx m e l = S754_infinity sx.
Proof.
  intros Hm He. unfold binary_round_aux.
  pose proof (shr_fexp_pos m e l Hm He) as [H1 H2].
  destruct (shr_fexp prec emax m e l) as [mrs' e']. cbn [fst snd] in H1, H2.
  pose proof (round_nearest_even_pos _ (loc_of_shr_record mrs') H1) as H3.
  pose proof (shr_fexp_pos _ e' loc_Exact H3 H2) as [H4 _].
  destruct (shr_fexp prec emax _ e' loc_Exact) as [mrs'' e''].
  cbn [fst] in H4.
  destruct (shr_m mrs'') as [|q|q]; try lia.
  destruct (e'' <=? emax - prec)%Z; [left; eauto | right; reflexivity].
Qed.

Lemma binary_round_sign (sx : bool) (m : positive) (e : Z) :
  (-1074 <= e)%Z ->
  (exists m' e', binary_round prec emax sx m e = S754_finite sx m' e')
  \/ binary_round prec emax sx m e = S754_infinity sx.
Proof.
  intros He. unfold binary_round, shl_align.
  set (e' := fexp prec emax (Zpos (digits2_pos m) + e)).
  assert (He' : (-1074 <= e')%Z).
  { unfold e', fexp, SpecFloat.emin.
    change prec with 53%Z; change emax with 1024%Z. lia. }
  destruct (e' - e)%Z; apply binary_round_aux_sign; lia.
Qed.

Lemma binary_normalize_ltb_0 (z e : Z) :
  (-1074 <= e)%Z ->
  SFltb (binary_normalize prec emax z e false) (S754_zero false)
  = (z <? 0)%Z.
Proof.
  intros He. destruct z as [|p|p]; cbn [binary_normalize].
  - reflexivity.
  - destruct (binary_round_sign false p e He) as [(m' & e' & E)|E];
      rewrite E; reflexivity.
  - destruct (binary_round_sign true p e He) as [(m' & e' & E)|E];
      rewrite E; reflexivity.
Qed.

Lemma iter_xO (d m : positive) :
  Zpos (Pos.iter xO m d) = (Zpos m * 2 ^ Zpos d)%Z.
Proof.
  revert m. induction d as [|d IH] using Pos.peano_ind; intros m.
  - cbn [Pos.iter]. lia.
  - rewrite Pos.iter_succ, Pos2Z.inj_succ, Z.pow_succ_r by lia.
    rewrite Pos2Z.inj_xO, IH. lia.
Qed.

Lemma shl_align_fst (m : positive) (e e' : Z) :
  (e' <= e)%Z ->
  Zpos (fst (shl_align m e e')) = (Zpos m * 2 ^ (e - e'))%Z.
Proof.
  intros H. unfold shl_align.
  destruct (e' - e)%Z as [|p|p] eqn:E; cbn [fst]; try lia.
  - replace (e - e')%Z with 0%Z by lia. lia.
  - rewrite iter_xO. do 2 f_equal. lia.
Qed.

Lemma ord_scale (s : bool) (m : positive) (e ez : Z) :
  (-1074 <= ez <= e)%Z ->
  ord (S754_finite s m e)
  = (cond_Zopp s (Zpos (fst (shl_align m e ez))) * 2 ^ (ez + 1074))%Z.
Proof.
  intros H. cbn [ord]. rewrite shl_align_fst by lia.
  replace (e + 1074)%Z with ((e - ez) + (ez + 1074))%Z by lia.
  rewrite (Z.pow_add_r 2 (e - ez) (ez + 1074)) by lia.
  destruct s; cbn [cond_Zopp]; lia.
Qed.

(** The sign of an IEEE difference is the sign of the difference of [ord]. *)
Lemma SFsub_ltb_0 (x y : spec_float) :
  valid_binary x = true -> valid_binary y = true ->
  x <> S754_nan -> y <> S754_nan ->
  SFltb (SFsub prec emax x y) (S754_zero false) = (ord x <? ord y)%Z.
Proof.
  intros Hx Hy Nx Ny.
  assert (Htop : (0 < 2 ^ 2098)%Z) by (apply Z.pow_pos_nonneg; lia).
  destruct x as [sx|sx| |sx mx ex], y as [sy|sy| |sy my ey];
    try congruence; cbn [SFsub ord].
  - destruct sx, sy; reflexivity.
  - destruct sy; cbn [negb cond_Zopp]; symmetry;
      [apply Z.ltb_ge | apply Z.ltb_lt]; lia.
  - pose proof (valid_finite_bounds _ _ _ Hy) as (He & _).
    pose proof (finite_mag_pos my ey ltac:(lia)).
    destruct sy; cbn [negb cond_Zopp]; symmetry;
      [apply Z.ltb_ge | apply Z.ltb_lt]; lia.
  - destruct sx; cbn [cond_Zopp]; symmetry;
      [apply Z.ltb_lt | apply Z.ltb_ge]; lia.
  - destruct sx, sy; cbn [cond_Zopp]; symmetry;
      first [apply Z.ltb_lt; lia | apply Z.ltb_ge; lia].
  - pose proof (valid_finite_bounds _ _ _ Hy) as (He & _).
    pose proof (finite_mag_pos my ey ltac:(lia)).
    pose proof (finite_mag_top _ _ _ Hy).
    destruct sx, sy; cbn [cond_Zopp]; symmetry;
      first [apply Z.ltb_lt; lia | apply Z.ltb_ge; lia].
  - pose proof (valid_finite_bounds _ _ _ Hx) as (He & _).
    pose proof (finite_mag_pos mx ex ltac:(lia)).
    destruct sx; cbn [cond_Zopp]; symmetry;
      [apply Z.ltb_lt | apply Z.ltb_ge]; lia.
  - pose proof (valid_finite_bounds _ _ _ Hx) as (He & _).
    pose proof (finite_mag_pos mx ex ltac:(lia)).
    pose proof (finite_mag_top _ _ _ Hx).
    destruct sx, sy; cbn [negb cond_Zopp]; symmetry;
      first [apply Z.ltb_lt; lia | apply Z.ltb_ge; lia].
  - pose proof (valid_finite_bounds _ _ _ Hx) as (Hex & _).
    pose proof (valid_finite_bounds _ _ _ Hy) as (Hey & _).
    cbv zeta. set (ez := Z.min ex ey).
    rewrite binary_normalize_ltb_0 by lia.
    change (cond_Zopp sx (Zpos mx * 2 ^ (ex + 1074)))
      with (ord (S754_finite sx mx ex)).
    change (cond_Zopp sy (Zpos my * 2 ^ (ey + 1074)))
      with (ord (S754_finite sy my ey)).
    rewrite (ord_scale sx mx ex ez), (ord_scale sy my ey ez) by lia.
    assert (Hq : (0 < 2 ^ (ez + 1074))%Z) by (apply Z.pow_pos_nonneg; lia).
    set (X := cond_Zopp sx _). set (Y := cond_Zopp sy _).
    set (Q := (2 ^ (ez + 1074))%Z) in *.
    destruct (Z.ltb_spec (X - Y) 0); symmetry;
      [apply Z.ltb_lt | apply Z.ltb_ge]; nia.
Qed.

(** *** The same facts on primitive floats *)

Lemma is_nan_Prim2SF (x : float) :
  is_nan x = false -> Prim2SF x <> S754_nan.
Proof.
  unfold is_nan. rewrite eqb_spec. intros H E. rewrite E in H. discriminate.
Qed.

Lemma Prim2SF_is_nan (x : float) :
  Prim2SF x <> S754_nan -> is_nan x = false.
Proof.
  intros H. unfold is_nan. rewrite eqb_spec. unfold SFeqb.
  rewrite SFcompare_ord by (auto using Prim2SF_valid).
  rewrite Z.compare_refl. reflexivity.
Qed.

Lemma ltb_ord (x y : float) :
  is_nan x = false -> is_nan y = false -> (x <? y) = (ordZ x <? ordZ y)%Z.
Proof.
  intros Hx Hy. rewrite ltb_spec. unfold SFltb, ordZ, Z.ltb.
  rewrite SFcompare_ord by (auto using Prim2SF_valid, is_nan_Prim2SF).
  reflexivity.
Qed.

Lemma leb_ord (x y : float) :
  is_nan x = false -> is_nan y = false -> (x <=? y) = (ordZ x <=? ordZ y)%Z.
Proof.
  intros Hx Hy. rewrite leb_spec. unfold SFleb, ordZ, Z.leb.
  rewrite SFcompare_ord by (auto using Prim2SF_valid, is_nan_Prim2SF).
  destruct (ord (Prim2SF x) ?= ord (Prim2SF y))%Z; reflexivity.
Qed.

Lemma eqb_ord (x y : float) :
  is_nan x = false -> is_nan y = false -> (x =? y) = (ordZ x =? ordZ y)%Z.
Proof.
  intros Hx Hy. rewrite eqb_spec. unfold SFeqb, ordZ.
  rewrite SFcompare_ord by (auto using Prim2SF_valid, is_nan_Prim2SF).
  destruct (Z.compare_spec (ord (Prim2SF x)) (ord (Prim2SF y)));
    symmetry; [apply Z.eqb_eq | apply Z.eqb_neq | apply Z.eqb_neq]; lia.
Qed.

Lemma sub_ltb_0 (x y : float) :
  is_nan x = false -> is_nan y = false ->
  (x - y <? 0) = (ordZ x <? ordZ y)%Z.
Proof.
  intros Hx Hy. rewrite ltb_spec, sub_spec.
  change (Prim2SF 0) with (S754_zero false).
  apply SFsub_ltb_0; auto using Prim2SF_valid, is_nan_Prim2SF.
Qed.

Lemma ltb_notnan (x y : float) :
  (x <? y) = true -> is_nan x = false /\ is_nan y = false.
Proof.
  rewrite ltb_spec. intros H.
  split; apply Prim2SF_is_nan; intros E; rewrite E in H;
    [|destruct (Prim2SF x)]; discriminate.
Qed.

Lemma ordZ_0 : ordZ 0 = 0%Z.
Proof. reflexivity. Qed.
(** *** Rounding never gives NaN *)

Lemma shr_fexp_nonneg (m e : Z) (l : location) :
  (0 <= m)%Z -> (0 <= shr_m (fst (shr_fexp prec emax m e l)))%Z.
Proof.
  intros Hm. unfold shr_fexp, shr.
  destruct (fexp prec emax (Zdigits2 m + e) - e)%Z as [|p|p];
    cbn [fst]; rewrite ?shr_m_of_loc; try exact Hm.
  rewrite iter_shr_1 by (rewrite shr_m_of_loc; exact Hm).
  rewrite shr_m_of_loc. apply Z.div_pos; [exact Hm|].
  apply Z.pow_pos_nonneg; lia.
Qed.

Lemma round_nearest_even_nonneg (m : Z) (l : location) :
  (0 <= m)%Z -> (0 <= round_nearest_even m l)%Z.
Proof.
  intros H. destruct l as [|[| |]]; cbn [round_nearest_even]; try lia.
  destruct (Z.even m); lia.
Qed.

Lemma binary_round_aux_cases (sx : bool) (m e : Z) (l : location) :
  (0 <= m)%Z ->
  binary_round_aux prec emax sx m e l = S754_zero sx
  \/ binary_round_aux prec emax sx m e l = S754_infinity sx
  \/ exists m' e', binary_round_aux prec emax sx m e l = S754_finite sx m' e'.
Proof.
  intros Hm. unfold binary_round_aux.
  pose proof (shr_fexp_nonneg m e l Hm) as H1.
  destruct (shr_fexp prec emax m e l) as [mrs' e']. cbn [fst] in H1.
  pose proof (round_nearest_even_nonneg _ (loc_of_shr_record mrs') H1) as H2.
  pose proof (shr_fexp_nonneg _ e' loc_Exact H2) as H3.
  destruct (shr_fexp prec emax _ e' loc_Exact) as [mrs'' e''].
  cbn [fst] in H3.
  destruct (shr_m mrs'') as [|q|q]; try lia; [left; reflexivity|].
  destruct (e'' <=? emax - prec)%Z; right; [right; eauto | left; reflexivity].
Qed.

Lemma binary_round_aux_not_nan (sx : bool) (m e : Z) (l : location) :
  (0 <= m)%Z -> binary_round_aux prec emax sx m e l <> S754_nan.
Proof.
  intros Hm.
  destruct (binary_round_aux_cases sx m e l Hm) as [E|[E|(m' & e' & E)]];
    rewrite E; discriminate.
Qed.

Lemma binary_round_not_nan (sx : bool) (m : positive) (e : Z) :
  binary_round prec emax sx m e <> S754_nan.
Proof.
  unfold binary_round.
  destruct (shl_align m e _) as [mz ez].
  apply binary_round_aux_not_nan. lia.
Qed.

Lemma binary_normalize_not_nan (z e : Z) (szero : bool) :
  binary_normalize prec emax z e szero <> S754_nan.
Proof.
  destruct z; cbn [binary_normalize];
    [discriminate | apply binary_round_not_nan..].
Qed.

Lemma SFdiv_core_binary_nonneg (m1 e1 m2 e2 : Z) :
  (0 <= m1)%Z -> (0 < m2)%Z ->
  (0 <= fst (fst (SFdiv_core_binary prec emax m1 e1 m2 e2)))%Z.
Proof.
  intros H1 H2. unfold SFdiv_core_binary.
  set (s := (e1 - e2 - _)%Z).
  set (m' := match s with
             | Zpos _ => Z.shiftl m1 s
             | Z0 => m1
             | Zneg _ => 0%Z
             end).
  assert (Hm' : (0 <= m')%Z).
  { unfold m'. destruct s; try lia. apply Z.shiftl_nonneg. exact H1. }
  pose proof (Z_div_mod m' m2 ltac:(lia)) as Hdm.
  destruct (Z.div_eucl m' m2) as [q r]. cbn [fst].
  destruct Hdm as [Hq Hr]. nia.
Qed.

(** The primitive float of a number of the specification is a number. *)
Lemma SF2Prim_number (x : spec_float) :
  x <> S754_nan -> is_nan (SF2Prim x) = false.
Proof.
  intros Hx. destruct x as [[|]|[|]| |s m e]; try reflexivity;
    [congruence|].
  apply Prim2SF_is_nan. unfold SF2Prim.
  set (pm := of_uint63 _).
  assert (Hl : Prim2SF (Z.ldexp pm e) <> S754_nan).
  { rewrite Z_ldexp_spec. unfold pm. rewrite of_uint63_spec.
    pose proof (binary_normalize_not_nan
                  (Uint63Axioms.to_Z (Uint63.of_Z (Zpos m))) 0 false) as Hn.
    destruct (binary_normalize prec emax _ 0 false); cbn [SFldexp];
      try discriminate; [congruence|].
    apply binary_round_not_nan. }
  destruct s; [|exact Hl].
  rewrite opp_spec. destruct (Prim2SF (Z.ldexp pm e)); cbn [SFopp];
    congruence.
Qed.

(** Consequences in the form the component needs them. *)

Lemma eqb_self (x : float) : is_nan x = false -> (x =? x) = true.
Proof. unfold is_nan. destruct (x =? x); [reflexivity | discriminate]. Qed.

Lemma ltb_leb (x y : float) : (x <? y) = true -> (x <=? y) = true.
Proof.
  intros H. destruct (ltb_notnan _ _ H) as [Nx Ny].
  rewrite ltb_ord in H by assumption. rewrite leb_ord by assumption.
  apply Z.leb_le. apply Z.ltb_lt in H. lia.
Qed.

Lemma not_ltb_leb (x y : float) :
  is_nan x = false -> is_nan y = false ->
  (x <? y) = false -> (y <=? x) = true.
Proof.
  intros Nx Ny H. rewrite ltb_ord in H by assumption.
  rewrite leb_ord by assumption.
  apply Z.leb_le. apply Z.ltb_ge in H. lia.
Qed.

Lemma leb_trans (x y z : float) :
  (x <=? y) = true -> (y <=? z) = true -> (x <=? z) = true.
Proof.
  intros H1 H2.
  assert (Nx : is_nan x = false /\ is_nan y = false).
  { rewrite leb_spec in H1. split; apply Prim2SF_is_nan; intros E;
      rewrite E in H1; [|destruct (Prim2SF x)]; discriminate. }
  assert (Nz : is_nan z = false).
  { rewrite leb_spec in H2. apply Prim2SF_is_nan; intros E;
      rewrite E in H2; destruct (Prim2SF y); discriminate. }
  destruct Nx as [Nx Ny].
  rewrite leb_ord in * by assumption.
  apply Z.leb_le. apply Z.leb_le in H1, H2. lia.
Qed.

Lemma ltb_leb_trans (x y z : float) :
  (x <? y) = true -> is_nan z = false -> (z <? y) = false ->
  (x <? z) = true.
Proof.
  intros H1 Nz H2. destruct (ltb_notnan _ _ H1) as [Nx Ny].
  rewrite ltb_ord in * by assumption.
  apply Z.ltb_lt. apply Z.ltb_lt in H1. apply Z.ltb_ge in H2. lia.
Qed.

Lemma leb_notnan (x y : float) :
  (x <=? y) = true -> is_nan x = false /\ is_nan y = false.
Proof.
  rewrite leb_spec. intros H.
  split; apply Prim2SF_is_nan; intros E; rewrite E in H;
    [|destruct (Prim2SF x)]; discriminate.
Qed.

Lemma eqb_notnan (x y : float) :
  (x =? y) = true -> is_nan x = false /\ is_nan y = false.
Proof.
  rewrite eqb_spec. intros H.
  split; apply Prim2SF_is_nan; intros E; rewrite E in H;
    [|destruct (Prim2SF x)]; discriminate.
Qed.

(** A number above one that equals [v] does not equal [v]. *)
Lemma eqb_below (a v b z : float) :
  (a =? v) = true -> (a <? b) = true -> (b <=? z) = true ->
  (z =? v) = false.
Proof.
  intros H1 H2 H3.
  destruct (eqb_notnan _ _ H1) as [Na Nv].
  destruct (leb_notnan _ _ H3) as [Nb Nz].
  rewrite eqb_ord in * by assumption. rewrite ltb_ord in H2 by assumption.
  rewrite leb_ord in H3 by assumption.
  apply Z.eqb_eq in H1. apply Z.ltb_lt in H2. apply Z.leb_le in H3.
  apply Z.eqb_neq. lia.
Qed.

Lemma leb_refl (x : float) : is_nan x = false -> (x <=? x) = true.
Proof. intros H. rewrite leb_ord by assumption. apply Z.leb_refl. Qed.

Lemma ltb_0_truthy (x : float) : (0 <? x) = true -> JS.truthy x = true.
Proof.
  intros H. destruct (ltb_notnan _ _ H) as [N0 Nx].
  unfold JS.truthy. rewrite eqb_self by assumption.
  rewrite ltb_ord in H by assumption. rewrite eqb_ord by assumption.
  rewrite ordZ_0 in *. apply Z.ltb_lt in H.
  destruct (Z.eqb_spec (ordZ x) 0); [lia | reflexivity].
Qed.

(** A positive number times a negative one is not above zero (it is
    negative, or a negative zero when the product underflows). *)
Lemma mul_pos_neg (x y : float) :
  (0 <? x) = true -> (y <? 0) = true -> (x * y <=? 0) = true.
Proof.
  rewrite !ltb_spec, leb_spec, mul_spec.
  change (Prim2SF 0) with (S754_zero false).
  destruct (Prim2SF x) as [sx|sx| |sx mx ex], (Prim2SF y) as [sy|sy| |sy my ey];
    try (destruct sx); try (destruct sy); try discriminate;
    intros _ _; try reflexivity.
  unfold SF64mul, SFmul. cbn [xorb].
  destruct (binary_round_aux_cases true (Zpos (mx * my)) (ex + ey) loc_Exact)
    as [E|[E|(m' & e' & E)]]; [lia|..]; rewrite E; reflexivity.
Qed.

(** More precisely, it is negative unless it underflows, and then it is the
    negative zero. *)
Lemma mul_pos_neg_cases (x y : float) :
  (0 <? x) = true -> (y <? 0) = true ->
  (x * y <? 0) = true \/ x * y = neg_zero.
Proof.
  rewrite !ltb_spec. intros Hx Hy.
  assert (H : SFltb (Prim2SF (x * y)) (Prim2SF 0) = true
              \/ Prim2SF (x * y) = S754_zero true).
  { rewrite mul_spec. revert Hx Hy.
    change (Prim2SF 0) with (S754_zero false).
    destruct (Prim2SF x) as [sx|sx| |sx mx ex],
      (Prim2SF y) as [sy|sy| |sy my ey];
      try (destruct sx); try (destruct sy); try discriminate;
      intros _ _; try (left; reflexivity).
    unfold SF64mul, SFmul. cbn [xorb].
    destruct (binary_round_aux_cases true (Zpos (mx * my)) (ex + ey)
                loc_Exact)
      as [E|[E|(m' & e' & E)]]; [lia|..]; rewrite E;
      [right | left | left]; reflexivity. }
  destruct H as [H|H]; [left; exact H | right].
  apply Prim2SF_inj. rewrite H. reflexivity.
Qed.

(** A negative number times a negative one is not below zero (it is
    positive, or a positive zero when the product underflows). *)
Lemma mul_neg_neg (x y : float) :
  (x <? 0) = true -> (y <? 0) = true -> (0 <=? x * y) = true.
Proof.
  rewrite !ltb_spec, leb_spec, mul_spec.
  change (Prim2SF 0) with (S754_zero false).
  destruct (Prim2SF x) as [sx|sx| |sx mx ex],
    (Prim2SF y) as [sy|sy| |sy my ey];
    try (destruct sx); try (destruct sy); try discriminate;
    intros _ _; try reflexivity.
  unfold SF64mul, SFmul. cbn [xorb].
  destruct (binary_round_aux_cases false (Zpos (mx * my)) (ex + ey)
              loc_Exact)
    as [E|[E|(m' & e' & E)]]; [lia|..]; rewrite E; reflexivity.
Qed.

Lemma finite_cases (x : float) :
  is_finite x = true ->
  (exists s, Prim2SF x = S754_zero s)
  \/ (exists s m e, Prim2SF x = S754_finite s m e).
Proof.
  unfold is_finite, is_nan, is_infinity.
  rewrite !eqb_spec, abs_spec.
  destruct (Prim2SF x) as [s|s| |s m e] eqn:E; intros H; eauto.
  - destruct s; discriminate.
  - discriminate.
Qed.

Lemma mul_0_finite (x : float) : is_finite x = true -> (x * 0 =? 0) = true.
Proof.
  intros H. rewrite eqb_spec, mul_spec.
  change (Prim2SF 0) with (S754_zero false).
  destruct (finite_cases x H) as [[s E]|(s & m & e & E)];
    rewrite E; destruct s; reflexivity.
Qed.

End FloatOrder.

(** ** Properties of the JavaScript primitives *)

Lemma truthy_number (x : float) :
  is_nan x = false -> JS.truthy x = negb (x =? 0).
Proof.
  intros H. unfold JS.truthy. rewrite FloatOrder.eqb_self by assumption.
  reflexivity.
Qed.

Lemma truthy_or_1 (x : float) : JS.truthy (JS.or x 1) = true.
Proof. unfold JS.or. destruct (JS.truthy x) eqn:E; [exact E | reflexivity]. Qed.

Lemma or_opt_null (a : option float) (x : float) :
  JS.or_opt a None = Some x -> a = Some x /\ JS.truthy x = true.
Proof.
  unfold JS.or_opt. destruct a as [y|]; cbn [JS.truthy_opt].
  - destruct (JS.truthy y) eqn:E; intros H; inversion H; subst; auto.
  - discriminate.
Qed.

(** ** Properties of the computation *)

Section ComponentFacts.

Variable Math_log : float -> float.

Ltac field := intros; unfold calculate; destruct (peak _); reflexivity.

Lemma calculate_points st :
  points (calculate Math_log st) = parsePoints (pointsCsv st).
Proof. field. Qed.

Lemma calculate_auc st :
  auc (calculate Math_log st)
  = trapezoidalAUC (points (calculate Math_log st)).
Proof. field. Qed.

Lemma calculate_k_from_t12 st :
  k_from_t12 (calculate Math_log st)
  = if JS.truthy (t12 st) then Some (0.693 / t12 st) else None.
Proof. field. Qed.

Lemma calculate_k_from_cl_vd st :
  k_from_cl_vd (calculate Math_log st)
  = if JS.truthy (Cl st) && JS.truthy (Vd st) then Some (Cl st / Vd st)
    else None.
Proof. field. Qed.

Lemma calculate_k_est st :
  k_est (calculate Math_log st)
  = estimateTerminalK Math_log (points (calculate Math_log st)).
Proof. field. Qed.

Lemma calculate_k st :
  k (calculate Math_log st)
  = JS.or_opt
      (JS.or_opt
         (JS.or_opt (k_est (calculate Math_log st))
            (k_from_cl_vd (calculate Math_log st)))
         (k_from_t12 (calculate Math_log st)))
      None.
Proof. field. Qed.

Lemma calculate_t_half st :
  t_half (calculate Math_log st)
  = match k (calculate Math_log st) with
    | Some kv => if JS.truthy kv then Some (0.693 / kv) else None
    | None => None
    end.
Proof. field. Qed.

Lemma calculate_aucInf st :
  aucInf (calculate Math_log st)
  = match k (calculate Math_log st) with
    | Some kv =>
        if JS.truthy kv
        then Some (auc (calculate Math_log st)
                   + lastConc (points (calculate Math_log st)) / kv)
        else None
    | None => None
    end.
Proof. field. Qed.

Lemma calculate_peak st :
  (Cmax (calculate Math_log st), Tmax (calculate Math_log st))
  = peak (points (calculate Math_log st)).
Proof.
  unfold calculate. destruct (peak _) eqn:E. cbn [Cmax Tmax points].
  symmetry. exact E.
Qed.

Lemma calculate_LD st :
  LD (calculate Math_log st) = cssTarget st * Vd st / JS.or (F st) 1.
Proof. field. Qed.

Lemma calculate_MD_rate st :
  MD_rate (calculate Math_log st)
  = cssTarget st
    * JS.or (Cl st)
        (match k (calculate Math_log st) with
         | Some kv =>
             if JS.truthy kv && JS.truthy (Vd st) then kv * Vd st else 0
         | None => 0
         end).
Proof. field. Qed.

Lemma calculate_MD st :
  MD (calculate Math_log st)
  = MD_rate (calculate Math_log st) * JS.or (tau st) 1 / JS.or (F st) 1.
Proof. field. Qed.

(** The terminal-slope candidate, when defined, is strictly positive. *)
Lemma estimateTerminalK_positive pts kv :
  estimateTerminalK Math_log pts = Some kv -> (0 <? kv) = true.
Proof.
  unfold estimateTerminalK.
  destruct (_ <? 2)%nat; [discriminate|].
  destruct (fold_left _ _ _) as [num den].
  destruct (den =? 0); [discriminate|].
  destruct (0 <? - (num / den)) eqn:E; [|discriminate].
  intros H. inversion H. subst. exact E.
Qed.

(** The selected rate, when defined, is truthy. *)
Lemma calculate_k_truthy st kv :
  k (calculate Math_log st) = Some kv -> JS.truthy kv = true.
Proof.
  rewrite calculate_k. intros H. apply or_opt_null in H. apply H.
Qed.

Lemma or_opt_chain (a b d : option float) :
  JS.or_opt (JS.or_opt (JS.or_opt a b) d) None = first_truthy [a; b; d].
Proof.
  unfold JS.or_opt. cbn [first_truthy].
  destruct (JS.truthy_opt a) eqn:Ha.
  - rewrite Ha, Ha. reflexivity.
  - destruct (JS.truthy_opt b) eqn:Hb.
    + rewrite Hb. reflexivity.
    + destruct (JS.truthy_opt d) eqn:Hd; reflexivity.
Qed.

(** C2, as amended: the selected rate is the first candidate, in the order
    terminal slope, clearance over volume, half-life, that is defined and
    truthy (neither 0 nor NaN); it is the first defined candidate whenever
    that one is truthy; when all three candidates are defined it is the
    terminal-slope candidate; when none is defined it is undefined. *)
Theorem rate_selection_priority st :
  let r := calculate Math_log st in
  let candidates := [k_est r; k_from_cl_vd r; k_from_t12 r] in
  k r = first_truthy candidates
  /\ (JS.truthy_opt (first_defined candidates) = true ->
      k r = first_defined candidates)
  /\ (forall a b d,
        k_est r = Some a -> k_from_cl_vd r = Some b -> k_from_t12 r = Some d ->
        k r = Some a)
  /\ (k_est r = None -> k_from_cl_vd r = None -> k_from_t12 r = None ->
      k r = None).
Proof.
  intros r candidates. subst candidates.
  assert (Hk := calculate_k st). fold r in Hk.
  rewrite or_opt_chain in Hk.
  assert (Hest : forall a, k_est r = Some a -> JS.truthy a = true).
  { intros a Ha. unfold r in Ha. rewrite calculate_k_est in Ha.
    apply FloatOrder.ltb_0_truthy.
    exact (estimateTerminalK_positive _ _ Ha). }
  split; [exact Hk|]. rewrite Hk. clear Hk.
  destruct (k_est r) as [a|].
  - cbn [first_truthy first_defined JS.truthy_opt].
    rewrite (Hest a eq_refl).
    repeat split; intros; congruence.
  - destruct (k_from_cl_vd r) as [b|].
    + cbn [first_truthy first_defined JS.truthy_opt].
      repeat split; intros; try congruence.
      rewrite H. reflexivity.
    + destruct (k_from_t12 r) as [d|];
        cbn [first_truthy first_defined JS.truthy_opt];
        repeat split; intros; try congruence.
      rewrite H. reflexivity.
Qed.

(** C5: the loading dose is [Css * Vd / F], the maintenance dose rate is
    [Css * Cl] when [Cl] is truthy, otherwise [Css * (k * Vd)] when the
    selected [k] is defined and [Vd] is truthy, otherwise [Css * 0] (which
    is zero for every finite [Css]), and the maintenance dose is
    [rate * tau / F], with 1 in the place of a falsy [F] or [tau]; the
    divisor of both divisions is never zero nor NaN. *)
Theorem dose_outputs st :
  let r := calculate Math_log st in
  let Fd := if JS.truthy (F st) then F st else 1 in
  let taud := if JS.truthy (tau st) then tau st else 1 in
  LD r = cssTarget st * Vd st / Fd
  /\ MD_rate r =
       (if JS.truthy (Cl st) then cssTarget st * Cl st
        else match k r with
             | Some kv =>
                 if JS.truthy (Vd st) then cssTarget st * (kv * Vd st)
                 else cssTarget st * 0
             | None => cssTarget st * 0
             end)
  /\ (is_finite (cssTarget st) = true -> (cssTarget st * 0 =? 0) = true)
  /\ MD r = MD_rate r * taud / Fd
  /\ JS.truthy Fd = true
  /\ JS.truthy taud = true.
Proof.
  intros r Fd taud. unfold r.
  rewrite calculate_LD, calculate_MD, calculate_MD_rate.
  repeat split.
  - unfold JS.or. destruct (JS.truthy (Cl st)); [reflexivity|].
    destruct (k (calculate Math_log st)) as [kv|] eqn:Ek; [|reflexivity].
    rewrite (calculate_k_truthy _ _ Ek). cbn [andb].
    destruct (JS.truthy (Vd st)); reflexivity.
  - apply FloatOrder.mul_0_finite.
  - exact (truthy_or_1 (F st)).
  - exact (truthy_or_1 (tau st)).
Qed.

(** C6, as amended: when the selected rate [k] is defined the derived
    half-life is [0.693 / k] (the literal constant, not ln 2) and the
    extrapolated AUC is the trapezoidal AUC plus the concentration of the
    last sample over [k]; when [k] is undefined both are undefined.  The
    last concentration of an empty sequence is 0. *)
Theorem half_life_and_extrapolated_auc st :
  let r := calculate Math_log st in
  (forall kv, k r = Some kv ->
     t_half r = Some (0.693 / kv)
     /\ aucInf r
        = Some (trapezoidalAUC (points r) + lastConc (points r) / kv))
  /\ (k r = None -> t_half r = None /\ aucInf r = None)
  /\ lastConc [] = 0
  /\ (forall l p, lastConc (l ++ [p]) = c p).
Proof.
  intros r. unfold r. repeat split.
  - rewrite calculate_t_half, H. rewrite (calculate_k_truthy _ _ H).
    reflexivity.
  - rewrite calculate_aucInf, H. rewrite (calculate_k_truthy _ _ H).
    rewrite calculate_auc. reflexivity.
  - rewrite calculate_t_half, H. reflexivity.
  - rewrite calculate_aucInf, H. reflexivity.
  - intros l p. unfold lastConc. rewrite length_app. cbn [List.length].
    rewrite Nat.add_1_r. unfold at_. rewrite app_nth2 by lia.
    rewrite Nat.sub_diag. reflexivity.
Qed.

(** C9: for inputs that are numbers, the half-life candidate is defined
    exactly when [t12] is nonzero and is then [0.693 / t12]; the
    clearance-over-volume candidate is defined exactly when [Cl] and [Vd] are
    both nonzero and is then [Cl / Vd].  With [t12 = 8] the former is
    0.086625, with [Cl = 4] and [Vd = 40] the latter is 0.1. *)
Theorem candidate_rates st :
  is_nan (t12 st) = false -> is_nan (Cl st) = false ->
  is_nan (Vd st) = false ->
  let r := calculate Math_log st in
  k_from_t12 r = (if t12 st =? 0 then None else Some (0.693 / t12 st))
  /\ k_from_cl_vd r
     = (if (Cl st =? 0) || (Vd st =? 0) then None else Some (Cl st / Vd st))
  /\ (t12 st = 8 -> k_from_t12 r = Some 0.086625)
  /\ (Cl st = 4 -> Vd st = 40 -> k_from_cl_vd r = Some 0.1).
Proof.
  intros Nt Nc Nv r. unfold r.
  rewrite calculate_k_from_t12, calculate_k_from_cl_vd.
  rewrite !truthy_number by assumption.
  repeat split.
  - destruct (t12 st =? 0); reflexivity.
  - destruct (Cl st =? 0), (Vd st =? 0); reflexivity.
  - intros E. rewrite E. reflexivity.
  - intros E1 E2. rewrite E1, E2. reflexivity.
Qed.

(** Candidates of inputs that are not numbers are undefined. *)
Lemma candidate_rates_of_nan st :
  let r := calculate Math_log st in
  (is_nan (t12 st) = true -> k_from_t12 r = None)
  /\ (is_nan (Cl st) = true \/ is_nan (Vd st) = true ->
      k_from_cl_vd r = None).
Proof.
  intros r. unfold r.
  rewrite calculate_k_from_t12, calculate_k_from_cl_vd.
  unfold JS.truthy, is_nan. split.
  - intros H. apply negb_true_iff in H. rewrite H. reflexivity.
  - intros [H|H]; apply negb_true_iff in H; rewrite H; cbn [andb];
      [reflexivity|].
    destruct ((Cl st =? Cl st) && negb (Cl st =? 0)); reflexivity.
Qed.

(** C10: two states that agree on [F], [Vd], [Cl], [t12], [tau], the target
    concentration and the CSV text have the same results, whatever their
    [ka], dose, route (and drug name) are. *)
Theorem unused_inputs_do_not_matter st1 st2 :
  F st1 = F st2 -> Vd st1 = Vd st2 -> Cl st1 = Cl st2 ->
  t12 st1 = t12 st2 -> tau st1 = tau st2 ->
  cssTarget st1 = cssTarget st2 -> pointsCsv st1 = pointsCsv st2 ->
  calculate Math_log st1 = calculate Math_log st2
  /\ results (handleCalculate Math_log st1)
     = results (handleCalculate Math_log st2).
Proof.
  intros HF HVd HCl Ht Htau Hc Hp.
  assert (E : calculate Math_log st1 = calculate Math_log st2).
  { unfold calculate. rewrite HF, HVd, HCl, Ht, Htau, Hc, Hp. reflexivity. }
  split; [exact E|]. unfold handleCalculate. cbn [results]. rewrite E.
  reflexivity.
Qed.

End ComponentFacts.

(** ** The area under the curve *)

Lemma fold_left_ext {A B} (f g : A -> B -> A) (l : list B) :
  (forall a x, In x l -> f a x = g a x) ->
  forall a, fold_left f l a = fold_left g l a.
Proof.
  induction l as [|x l IH]; intros H a; [reflexivity|].
  cbn [fold_left]. rewrite (H a x) by (left; reflexivity).
  apply IH. intros a' y Hy. apply H. right. exact Hy.
Qed.

Lemma fold_left_shift {A} (f : A -> nat -> A) (start len : nat) (a : A) :
  fold_left f (seq (S start) len) a
  = fold_left (fun acc i => f acc (S i)) (seq start len) a.
Proof.
  rewrite <- seq_shift. generalize (seq start len) as l. intros l.
  revert a. induction l as [|x l IH]; intros a; [reflexivity|].
  cbn [map fold_left]. apply IH.
Qed.

Lemma auc_loop (pts : list Point) : forall acc,
  fold_left (auc_step pts) (seq 1 (List.length pts - 1)) acc
  = fold_left add (pair_areas pts) acc.
Proof.
  induction pts as [|p rest IH]; intros acc; [reflexivity|].
  destruct rest as [|q rest]; [reflexivity|].
  cbn [List.length Nat.sub] in *. rewrite Nat.sub_0_r in *.
  cbn [seq fold_left pair_areas].
  rewrite <- IH.
  rewrite fold_left_shift.
  apply fold_left_ext. intros a i Hi. apply in_seq in Hi.
  destruct i as [|i]; [lia|].
  unfold auc_step, at_. cbn [nth Nat.sub]. rewrite !Nat.sub_0_r.
  reflexivity.
Qed.

(** C4, as amended: the AUC is the left-to-right sum, from 0, of
    [(c[i] + c[i-1]) / 2 * (t[i] - t[i-1])] over the consecutive pairs in
    the order given, and it is 0 for zero or one sample.  Nothing is sorted:
    a pair whose times decrease contributes, when its mean concentration is
    positive, an area that is negative, or the negative zero when the
    product underflows, and, when its mean concentration is negative, an
    area that is not below 0; so (2,3.5), (1,2.1) give -2.8.  The samples
    (0,0), (1,2.1), (2,3.5) give 3.8499999999999996, which is 3.85 to within
    1e-15 and has the three decimals of 3.85, those shown: 3.850. *)
Theorem trapezoidalAUC_sums_consecutive_trapezoids (pts : list Point) :
  trapezoidalAUC pts = sum (pair_areas pts)
  /\ ((List.length pts <= 1)%nat -> trapezoidalAUC pts = 0)
  /\ (forall p q, trapezoidalAUC [p; q] = 0 + (c q + c p) / 2 * (t q - t p))
  /\ (forall p q, timed p -> timed q ->
        (t q <? t p) = true -> (0 <? (c q + c p) / 2) = true ->
        ((c q + c p) / 2 * (t q - t p) <=? 0) = true
        /\ (((c q + c p) / 2 * (t q - t p) <? 0) = true
            \/ (c q + c p) / 2 * (t q - t p) = neg_zero))
  /\ (forall p q, timed p -> timed q ->
        (t q <? t p) = true -> ((c q + c p) / 2 <? 0) = true ->
        (0 <=? (c q + c p) / 2 * (t q - t p)) = true)
  /\ trapezoidalAUC [mkPoint 2 3.5; mkPoint 1 2.1] = -2.8
  /\ trapezoidalAUC [mkPoint 0 0; mkPoint 1 2.1; mkPoint 2 3.5]
     = 3.8499999999999996
  /\ (abs (3.8499999999999996 - 3.85) <? 1e-15) = true
  /\ JSFmt.toFixed
       (trapezoidalAUC [mkPoint 0 0; mkPoint 1 2.1; mkPoint 2 3.5]) 3
     = "3.850"%string
  /\ JSFmt.toFixed 3.85 3 = "3.850"%string.
Proof.
  assert (Hdt : forall p q, timed p -> timed q ->
            (t q <? t p) = true -> (t q - t p <? 0) = true).
  { intros p q Tp Tq H.
    rewrite FloatOrder.sub_ltb_0, <- FloatOrder.ltb_ord by assumption.
    exact H. }
  split; [apply auc_loop|]. split; [|split; [reflexivity|split; [|split]]].
  - intros H. destruct pts as [|p [|q rest]]; try reflexivity.
    cbn [List.length] in H. lia.
  - intros p q Tp Tq H Havg. split.
    + exact (FloatOrder.mul_pos_neg _ _ Havg (Hdt p q Tp Tq H)).
    + exact (FloatOrder.mul_pos_neg_cases _ _ Havg (Hdt p q Tp Tq H)).
  - intros p q Tp Tq H Havg.
    exact (FloatOrder.mul_neg_neg _ _ Havg (Hdt p q Tp Tq H)).
  - vm_compute. repeat split.
Qed.

(** ** The terminal slope *)

Lemma slice_last_last_n {A} (n : nat) (l : list A) :
  JS.slice_last n l = last_n n l.
Proof.
  unfold JS.slice_last, last_n. rewrite firstn_rev, rev_involutive.
  reflexivity.
Qed.

Lemma last_n_suffix {A} (n : nat) (l : list A) :
  (exists front, l = front ++ last_n n l)
  /\ List.length (last_n n l) = Nat.min n (List.length l).
Proof.
  rewrite <- slice_last_last_n. unfold JS.slice_last. split.
  - exists (firstn (List.length l - n) l). symmetry. apply firstn_skipn.
  - rewrite length_skipn. lia.
Qed.

Lemma regression_loop (f g : Point -> float) (xbar ybar : float)
    (w : list Point) : forall num den,
  fold_left (regression_step (map f w) (map g w) xbar ybar)
    (seq 0 (List.length w)) (num, den)
  = (fold_left add
       (map (fun xy => (fst xy - xbar) * (snd xy - ybar))
          (map (fun p => (f p, g p)) w)) num,
     fold_left add
       (map (fun xy => (fst xy - xbar) * (fst xy - xbar))
          (map (fun p => (f p, g p)) w)) den).
Proof.
  induction w as [|p w IH]; intros num den; [reflexivity|].
  cbn [List.length seq map fold_left fst snd].
  rewrite fold_left_shift.
  rewrite <- IH.
  apply fold_left_ext. intros [a b] i _. reflexivity.
Qed.

Section TerminalSlope.

Variable Math_log : float -> float.

(** C3: the terminal-slope candidate is the one the specification words:
    the samples of concentration above 0 are kept; with fewer than 2 of them
    the candidate is undefined; the last up to 4 of them form the window;
    over it the least-squares sums of [ln c] against [t] are taken; the
    candidate is the negated quotient, undefined when the sum of squared
    time deviations is zero or when the negated quotient is not above 0. *)
Theorem estimateTerminalK_is_least_squares_slope (pts : list Point) :
  let positive := filter (fun p => 0 <? c p) pts in
  estimateTerminalK Math_log pts = terminal_slope_spec Math_log pts
  /\ ((List.length positive < 2)%nat -> estimateTerminalK Math_log pts = None)
  /\ (forall kv, estimateTerminalK Math_log pts = Some kv -> (0 <? kv) = true)
  /\ (exists front, positive = front ++ last_n 4 positive)
  /\ List.length (last_n 4 positive) = Nat.min 4 (List.length positive).
Proof.
  intros positive.
  split; [|split; [|split; [|apply last_n_suffix]]].
  - unfold estimateTerminalK, terminal_slope_spec. fold positive.
    destruct (List.length positive <? 2)%nat; [reflexivity|].
    rewrite slice_last_last_n. set (w := last_n 4 positive).
    unfold ols_sums, mean, sum.
    rewrite !map_map. cbn [fst snd]. rewrite !length_map.
    rewrite regression_loop. rewrite !map_map. cbn [fst snd].
    reflexivity.
  - intros H. unfold estimateTerminalK. fold positive.
    apply Nat.ltb_lt in H. rewrite H. reflexivity.
  - apply estimateTerminalK_positive.
Qed.

End TerminalSlope.

Lemma estimateTerminalK_is_least_squares_slope_witness :
  estimateTerminalK ref_log [mkPoint 0 0; mkPoint 1 2.1] = None.
Proof.
  destruct (estimateTerminalK_is_least_squares_slope ref_log
              [mkPoint 0 0; mkPoint 1 2.1]) as (_ & H & _).
  apply H. vm_compute. lia.
Defined.

Lemma trapezoidalAUC_sums_consecutive_trapezoids_witness :
  trapezoidalAUC [mkPoint 3 1.5] = 0
  /\ ((2.1 + 3.5) / 2 * (1 - 2) <=? 0) = true
  /\ (0 <=? (-2.1 + -3.5) / 2 * (1 - 2)) = true.
Proof.
  destruct (trapezoidalAUC_sums_consecutive_trapezoids [mkPoint 3 1.5])
    as (_ & H1 & _ & Hpos & Hneg & _).
  split; [apply H1; cbn [List.length]; lia|]. split.
  - apply (Hpos (mkPoint 2 3.5) (mkPoint 1 2.1)); reflexivity.
  - apply (Hneg (mkPoint 2 (-3.5)) (mkPoint 1 (-2.1))); reflexivity.
Defined.

(** C4, the claim as stated fails twice.  In binary64 arithmetic the three
    samples give the number just below 3.85, not 3.85.  And a negative time
    delta does not always give a negative partial area: between
    (1, 5e-324) and (0.5, 5e-324) the product underflows to the negative
    zero, which is not below 0 and leaves the AUC at 0; between (2, -3.5)
    and (1, -2.1) the area is positive. *)
Lemma trapezoidalAUC_example_and_negative_delta_fail :
  (trapezoidalAUC [mkPoint 0 0; mkPoint 1 2.1; mkPoint 2 3.5]
   = 3.8499999999999996
   /\ 1.05 + 2.8 = 3.8499999999999996
   /\ trapezoidalAUC [mkPoint 0 0; mkPoint 1 2.1; mkPoint 2 3.5] <> 3.85)
  /\ (let p := mkPoint 1 5e-324 in
      let q := mkPoint 0.5 5e-324 in
      (t q - t p <? 0) = true
      /\ (0 <? (c q + c p) / 2) = true
      /\ (c q + c p) / 2 * (t q - t p) = neg_zero
      /\ ((c q + c p) / 2 * (t q - t p) <? 0) = false
      /\ trapezoidalAUC [p; q] = 0)
  /\ (let p := mkPoint 2 (-3.5) in
      let q := mkPoint 1 (-2.1) in
      (t q - t p <? 0) = true
      /\ (0 <? (c q + c p) / 2 * (t q - t p)) = true
      /\ trapezoidalAUC [p; q] = 2.7999999999999998).
Proof.
  split; [|vm_compute; repeat split].
  vm_compute. repeat split. intros E.
  apply (f_equal (fun x => x =? 3.85)) in E.
  vm_compute in E. discriminate.
Qed.

(** ** Sorting by time *)

Section SortFacts.

Context {A : Type} (comparefn : A -> A -> float).

Lemma insert_perm (x : A) (l : list A) :
  Permutation (x :: l) (JS.insert comparefn x l).
Proof.
  induction l as [|y l IH]; cbn [JS.insert]; [reflexivity|].
  destruct (comparefn x y <? 0); [reflexivity|].
  rewrite perm_swap. apply perm_skip. exact IH.
Qed.

Lemma sort_fold_perm (l : list A) : forall acc,
  Permutation (l ++ acc)
    (fold_left (fun acc x => JS.insert comparefn x acc) l acc).
Proof.
  induction l as [|x l IH]; intros acc; cbn [fold_left app]; [reflexivity|].
  rewrite <- IH. rewrite <- insert_perm. apply Permutation_middle.
Qed.

Lemma sort_perm (l : list A) : Permutation l (JS.sort comparefn l).
Proof.
  unfold JS.sort. rewrite <- sort_fold_perm. rewrite app_nil_r. reflexivity.
Qed.

End SortFacts.

Lemma byTime_below (x y : Point) :
  timed x -> timed y -> (byTime x y <? 0) = (t x <? t y).
Proof.
  intros Hx Hy. unfold byTime.
  rewrite FloatOrder.sub_ltb_0, FloatOrder.ltb_ord by assumption.
  reflexivity.
Qed.

Lemma insert_sorted (x : Point) (l : list Point) :
  timed x -> Forall timed l -> StronglySorted time_le l ->
  StronglySorted time_le (JS.insert byTime x l).
Proof.
  intros Hx Hl Hs. induction Hs as [|y l Hs IH Hy]; cbn [JS.insert].
  - constructor; constructor.
  - inversion Hl as [|? ? Ty Tl]; subst.
    rewrite byTime_below by assumption.
    destruct (t x <? t y) eqn:E.
    + constructor; [constructor; assumption|].
      apply FloatOrder.ltb_leb in E.
      constructor; [exact E|].
      eapply Forall_impl; [|exact Hy].
      intros z Hz. unfold time_le in *.
      exact (FloatOrder.leb_trans _ _ _ E Hz).
    + constructor; [apply IH; assumption|].
      rewrite <- insert_perm.
      constructor; [|exact Hy].
      apply FloatOrder.not_ltb_leb; assumption.
Qed.

Lemma sort_fold_sorted (l : list Point) : forall acc,
  Forall timed l -> Forall timed acc -> StronglySorted time_le acc ->
  StronglySorted time_le
    (fold_left (fun acc x => JS.insert byTime x acc) l acc).
Proof.
  induction l as [|x l IH]; intros acc Hl Hacc Hs; cbn [fold_left];
    [exact Hs|].
  inversion Hl as [|? ? Tx Tl]; subst.
  apply IH; [exact Tl| |apply insert_sorted; assumption].
  rewrite <- insert_perm. constructor; assumption.
Qed.

Lemma sort_sorted (l : list Point) :
  Forall timed l -> StronglySorted time_le (JS.sort byTime l).
Proof.
  intros H. apply sort_fold_sorted; [exact H|constructor|constructor].
Qed.

Lemma filter_none {A} (f : A -> bool) (l : list A) :
  (forall x, In x l -> f x = false) -> filter f l = [].
Proof.
  induction l as [|a l IH]; intros H; [reflexivity|]. cbn [filter].
  rewrite (H a) by (left; reflexivity).
  apply IH. intros x Hx. apply H. right. exact Hx.
Qed.

(** Insertion puts a sample after the samples of the same time. *)
Lemma insert_same_time (v : float) (x : Point) (l : list Point) :
  timed x -> Forall timed l -> StronglySorted time_le l ->
  filter (same_time v) (JS.insert byTime x l)
  = filter (same_time v) l ++ filter (same_time v) [x].
Proof.
  intros Hx Hl Hs. induction Hs as [|y l Hs IH Hy]; [reflexivity|].
  inversion Hl as [|? ? Ty Tl]; subst.
  cbn [JS.insert]. rewrite byTime_below by assumption.
  destruct (t x <? t y) eqn:E.
  - cbn [filter]. destruct (same_time v x) eqn:Px.
    + assert (Hnone : filter (same_time v) (y :: l) = []).
      { apply filter_none. intros z [<-|Hz]; unfold same_time in *.
        - apply (FloatOrder.eqb_below _ _ _ _ Px E).
          apply FloatOrder.leb_refl. exact Ty.
        - apply (FloatOrder.eqb_below _ _ _ _ Px E).
          rewrite Forall_forall in Hy. apply Hy. exact Hz. }
      cbn [filter] in Hnone. rewrite Hnone. reflexivity.
    + rewrite app_nil_r. reflexivity.
  - cbn [filter]. rewrite (IH Tl).
    destruct (same_time v y); reflexivity.
Qed.

Lemma sort_fold_same_time (v : float) (l : list Point) : forall acc,
  Forall timed l -> Forall timed acc -> StronglySorted time_le acc ->
  filter (same_time v) (fold_left (fun acc x => JS.insert byTime x acc) l acc)
  = filter (same_time v) acc ++ filter (same_time v) l.
Proof.
  induction l as [|x l IH]; intros acc Hl Hacc Hs; cbn [fold_left].
  - cbn [filter]. rewrite app_nil_r. reflexivity.
  - inversion Hl as [|? ? Tx Tl]; subst.
    rewrite IH; [| exact Tl | | apply insert_sorted; assumption].
    2:{ rewrite <- insert_perm. constructor; assumption. }
    rewrite insert_same_time by assumption.
    rewrite <- app_assoc. f_equal. cbn [filter].
    destruct (same_time v x); reflexivity.
Qed.

(** The sort is stable: the samples of one time keep their order. *)
Lemma sort_stable (v : float) (l : list Point) :
  Forall timed l ->
  filter (same_time v) (JS.sort byTime l) = filter (same_time v) l.
Proof.
  intros H. unfold JS.sort.
  rewrite sort_fold_same_time by (assumption || constructor).
  reflexivity.
Qed.

(** ** Splitting and trimming *)

Local Open Scope string_scope.

Lemma append_assoc (a b d : string) : (a ++ b) ++ d = a ++ (b ++ d).
Proof.
  induction a as [|x a IH]; cbn [append]; [reflexivity | now rewrite IH].
Qed.

Lemma lacks_app (x : ascii) (a b : string) :
  lacks x (a ++ b) = lacks x a && lacks x b.
Proof.
  induction a as [|y a IH]; cbn [append lacks]; [reflexivity|].
  rewrite IH. apply andb_assoc.
Qed.

Lemma all_ws_lacks (x : ascii) (s : string) :
  JS.is_ws x = false -> all_ws s = true -> lacks x s = true.
Proof.
  intros Hx. induction s as [|a s IH]; cbn [all_ws lacks]; [reflexivity|].
  intros H. apply andb_prop in H. destruct H as [Ha Hs].
  rewrite (IH Hs), andb_true_r.
  destruct (Ascii.eqb_spec a x) as [->|]; [congruence | reflexivity].
Qed.

Lemma split_nonempty (sep : ascii) (s : string) : JS.split sep s <> [].
Proof.
  induction s as [|a s IH]; cbn [JS.split]; [discriminate|].
  destruct (Ascii.eqb a sep); [discriminate|].
  destruct (JS.split sep s); [contradiction | discriminate].
Qed.

Lemma split_lacks (sep : ascii) (s : string) :
  lacks sep s = true -> JS.split sep s = [s].
Proof.
  induction s as [|a s IH]; cbn [JS.split lacks]; [reflexivity|].
  intros H. apply andb_prop in H. destruct H as [Ha Hs].
  apply negb_true_iff in Ha. rewrite Ha, (IH Hs). reflexivity.
Qed.

Lemma split_app (sep : ascii) (u v : string) :
  lacks sep u = true ->
  JS.split sep (u ++ String sep v) = u :: JS.split sep v.
Proof.
  induction u as [|a u IH]; cbn [JS.split lacks append].
  - intros _. rewrite Ascii.eqb_refl. reflexivity.
  - intros H. apply andb_prop in H. destruct H as [Ha Hu].
    apply negb_true_iff in Ha. rewrite Ha, (IH Hu). reflexivity.
Qed.

(** Splitting inverts joining. *)
Lemma split_join (sep : ascii) (l : list string) :
  l <> [] -> forallb (lacks sep) l = true -> JS.split sep (join sep l) = l.
Proof.
  induction l as [|s l IH]; [congruence|]. intros _ H.
  cbn [forallb] in H. apply andb_prop in H. destruct H as [Hs Hl].
  destruct l as [|s' l]; [apply split_lacks; exact Hs|].
  change (join sep (s :: s' :: l)) with (s ++ String sep (join sep (s' :: l))).
  rewrite split_app by exact Hs.
  rewrite IH; [reflexivity | discriminate | exact Hl].
Qed.

Lemma trim_start_ws (s : string) : all_ws s = true -> JS.trim_start s = "".
Proof.
  induction s as [|a s IH]; cbn [all_ws JS.trim_start]; [reflexivity|].
  intros H. apply andb_prop in H. destruct H as [Ha Hs].
  rewrite Ha. exact (IH Hs).
Qed.

Lemma trim_start_app (a r : string) :
  JS.trim_start (a ++ r)
  = match JS.trim_start a with
    | "" => JS.trim_start r
    | a' => a' ++ r
    end.
Proof.
  induction a as [|x a IH]; cbn [append JS.trim_start].
  - destruct (JS.trim_start r); reflexivity.
  - destruct (JS.is_ws x); [exact IH | reflexivity].
Qed.

Lemma trim_end_ws (s : string) : all_ws s = true -> JS.trim_end s = "".
Proof.
  induction s as [|a s IH]; cbn [all_ws JS.trim_end]; [reflexivity|].
  intros H. apply andb_prop in H. destruct H as [Ha Hs].
  rewrite (IH Hs), Ha. reflexivity.
Qed.

Lemma trim_end_app_ws (s r : string) :
  all_ws r = true -> JS.trim_end (s ++ r) = JS.trim_end s.
Proof.
  intros Hr. induction s as [|a s IH]; cbn [append JS.trim_end].
  - apply trim_end_ws, Hr.
  - rewrite IH. reflexivity.
Qed.

(** White space around a token does not change what [trim] returns. *)
Lemma trim_padded (l a r : string) :
  all_ws l = true -> all_ws r = true -> JS.trim (l ++ a ++ r) = JS.trim a.
Proof.
  intros Hl Hr. unfold JS.trim.
  rewrite trim_start_app, (trim_start_ws l Hl).
  rewrite trim_start_app.
  destruct (JS.trim_start a) as [|x a'] eqn:E.
  - rewrite (trim_start_ws r Hr). reflexivity.
  - apply trim_end_app_ws, Hr.
Qed.

(** A segment with white space around its two tokens parses as the segment
    without it. *)
Lemma parseSegment_padded (l1 a r1 l2 b r2 : string) :
  all_ws l1 = true -> all_ws r1 = true ->
  all_ws l2 = true -> all_ws r2 = true ->
  lacks ":" a = true -> lacks ":" b = true ->
  parseSegment ((l1 ++ a ++ r1) ++ ":" ++ (l2 ++ b ++ r2))
  = mkPoint (JS.parseFloat (JS.trim a)) (JS.parseFloat (JS.trim b)).
Proof.
  intros Hl1 Hr1 Hl2 Hr2 Ha Hb. unfold parseSegment.
  change (":" ++ (l2 ++ b ++ r2)) with (String ":" (l2 ++ b ++ r2)).
  rewrite split_app.
  2:{ rewrite !lacks_app, Ha.
      rewrite !(all_ws_lacks ":") by (assumption || reflexivity).
      reflexivity. }
  rewrite split_lacks.
  2:{ rewrite !lacks_app, Hb.
      rewrite !(all_ws_lacks ":") by (assumption || reflexivity).
      reflexivity. }
  cbn [map nth_error JS.parseFloat_elem].
  rewrite !trim_padded by assumption. reflexivity.
Qed.

Local Close Scope string_scope.

(** ** [parseFloat] returns a number exactly on a decimal literal *)

Lemma read_digits_spec (s : string) : forall acc n m n' r,
  JS.read_digits s acc n = (m, n', r) ->
  (n <= n')%Z
  /\ ((0 <= acc)%Z -> (0 <= m)%Z)
  /\ (starts_with_digit s = true -> (n < n')%Z)
  /\ (starts_with_digit s = false -> n' = n /\ m = acc /\ r = s).
Proof.
  induction s as [|a s IH]; intros acc n m n' r; cbn [JS.read_digits].
  - intros H. inversion H. subst. repeat split; try lia; try discriminate.
  - cbn [starts_with_digit]. destruct (JS.is_digit a) eqn:Ha.
    + intros H. apply IH in H. destruct H as (H1 & H2 & _).
      assert (Hd : (0 <= JS.digit_val a)%Z).
      { unfold JS.is_digit in Ha. unfold JS.digit_val.
        apply andb_prop in Ha. destruct Ha as [Ha _].
        apply Nat.leb_le in Ha. lia. }
      repeat split; try lia; try discriminate.
    + intros H. inversion H. subst. repeat split; try lia; try discriminate.
Qed.

Lemma round_decimal_number (neg : bool) (m e10 : Z) :
  (0 <= m)%Z -> is_nan (JS.round_decimal neg m e10) = false.
Proof.
  intros Hm. unfold JS.round_decimal.
  destruct (m =? 0)%Z; [destruct neg; reflexivity|].
  apply FloatOrder.SF2Prim_number.
  destruct (Z.leb_spec 0 e10); [apply FloatOrder.binary_normalize_not_nan|].
  pose proof (FloatOrder.SFdiv_core_binary_nonneg m 0 (10 ^ (- e10)) 0 Hm)
    as Hq.
  destruct (SFdiv_core_binary prec emax m 0 (10 ^ (- e10)) 0) as [[q e] l].
  cbn [fst] in Hq. apply FloatOrder.binary_round_aux_not_nan.
  apply Hq. apply Z.pow_pos_nonneg; lia.
Qed.

Lemma parseFloat_number (s : string) :
  isNumber (JS.parseFloat s) = has_literal s.
Proof.
  unfold isNumber, JS.parseFloat, has_literal.
  destruct (JS.read_sign (JS.trim_start s)) as [neg r]. cbn [snd].
  destruct (String.prefix "Infinity" r); [destruct neg; reflexivity|].
  cbn [orb].
  destruct (JS.read_digits r 0 0) as [[m1 n1] r1] eqn:E1.
  apply read_digits_spec in E1. destruct E1 as (Hn1 & Hm1 & Hd1 & Hnd1).
  specialize (Hm1 ltac:(lia)).
  destruct (starts_with_digit r) eqn:Sr.
  - specialize (Hd1 eq_refl). cbn [orb].
    destruct (match r1 with
              | String "." r' => JS.read_digits r' m1 0
              | _ => (m1, 0%Z, r1)
              end) as [[m n2] r2] eqn:E2.
    assert (Hm : (0 <= m)%Z /\ (0 <= n2)%Z).
    { destruct r1 as [|a r']; [inversion E2; subst; lia|].
      destruct (Ascii.eqb_spec a ".") as [->|Hne].
      - apply read_digits_spec in E2. destruct E2 as (H1 & H2 & _).
        split; [apply H2; exact Hm1 | exact H1].
      - assert (E : (m1, 0%Z, String a r') = (m, n2, r2)).
        { rewrite <- E2. destruct a as [[|] [|] [|] [|] [|] [|] [|] [|]];
            try reflexivity. congruence. }
        inversion E; subst; lia. }
    destruct (Z.eqb_spec (n1 + n2) 0); [lia|].
    rewrite round_decimal_number by apply Hm. reflexivity.
  - destruct (Hnd1 eq_refl) as (-> & -> & ->). cbn [orb].
    destruct r as [|a r'].
    + reflexivity.
    + destruct (Ascii.eqb_spec a ".") as [->|Hne].
      * destruct (JS.read_digits r' 0 0) as [[m n2] r2] eqn:E2.
        apply read_digits_spec in E2.
        destruct E2 as (H1 & H2 & H3 & H4).
        destruct (starts_with_digit r') eqn:Sr'.
        -- specialize (H3 eq_refl).
           destruct (Z.eqb_spec (0 + n2) 0); [lia|].
           rewrite round_decimal_number by (apply H2; lia). reflexivity.
        -- destruct (H4 eq_refl) as (-> & _). reflexivity.
      * assert (E : match String a r' with
                    | String "." r'0 => JS.read_digits r'0 0 0
                    | _ => (0%Z, 0%Z, String a r')
                    end = (0%Z, 0%Z, String a r')).
        { destruct a as [[|] [|] [|] [|] [|] [|] [|] [|]];
            try reflexivity. congruence. }
        rewrite E.
        assert (E' : match String a r' with
                     | String "." r'0 => starts_with_digit r'0
                     | _ => false
                     end = false).
        { destruct a as [[|] [|] [|] [|] [|] [|] [|] [|]];
            try reflexivity. congruence. }
        rewrite E'. reflexivity.
Qed.

Lemma parseFloat_undefined : JS.parseFloat "undefined" = nan.
Proof. reflexivity. Qed.

(** A segment is well formed exactly when it parses to two numbers. *)
Lemma wellFormedSegment_numeric (p : string) :
  wellFormedSegment p = numeric (parseSegment p).
Proof.
  unfold wellFormedSegment, numeric, parseSegment.
  destruct (map JS.trim (JS.split ":" p)) as [|a [|b rest]];
    cbn [nth_error JS.parseFloat_elem t c];
    rewrite ?parseFloat_undefined, ?parseFloat_number;
    try reflexivity.
  change (isNumber nan) with false. symmetry. apply andb_false_r.
Qed.

(** ** The point parser *)

Lemma parsePoints_perm (csv : string) :
  Permutation (map parseSegment (JS.split "," csv)) (parsePoints csv).
Proof. apply sort_perm. Qed.

Lemma parsePoints_length (csv : string) :
  List.length (parsePoints csv) = List.length (JS.split "," csv).
Proof.
  rewrite <- (Permutation_length (parsePoints_perm csv)). apply length_map.
Qed.

Lemma wellFormed_numeric (csv : string) :
  wellFormed csv = true ->
  Forall (fun p => numeric p = true) (map parseSegment (JS.split "," csv)).
Proof.
  unfold wellFormed. rewrite forallb_forall. intros H.
  apply Forall_forall. intros p Hp. apply in_map_iff in Hp.
  destruct Hp as (seg & <- & Hseg).
  rewrite <- wellFormedSegment_numeric. apply H. exact Hseg.
Qed.

Lemma numeric_timed (l : list Point) :
  Forall (fun p => numeric p = true) l -> Forall timed l.
Proof.
  apply Forall_impl. intros p H. unfold numeric, isNumber in H.
  apply andb_prop in H. destruct H as [H _].
  apply negb_true_iff in H. exact H.
Qed.

(** C7: for a well-formed CSV text the parser returns one sample for each
    comma-separated segment, none dropped and none merged (the result is a
    permutation of the parsed segments, so samples of equal time all remain,
    and they keep their order), every sample made of two numbers, in
    ascending order of time; white space around the two tokens of a segment
    is trimmed before they are parsed. *)
Theorem parsePoints_of_well_formed_text (csv : string) :
  wellFormed csv = true ->
  List.length (parsePoints csv) = List.length (JS.split "," csv)
  /\ Permutation (map parseSegment (JS.split "," csv)) (parsePoints csv)
  /\ Forall (fun p => numeric p = true) (parsePoints csv)
  /\ StronglySorted time_le (parsePoints csv)
  /\ (forall v, filter (same_time v) (parsePoints csv)
                = filter (same_time v) (map parseSegment (JS.split "," csv)))
  /\ (forall segs, segs <> [] -> forallb (lacks ",") segs = true ->
        csv = join "," segs -> JS.split "," csv = segs)
  /\ (forall l1 a r1 l2 b r2,
        all_ws l1 = true -> all_ws r1 = true ->
        all_ws l2 = true -> all_ws r2 = true ->
        lacks ":" a = true -> lacks ":" b = true ->
        parseSegment ((l1 ++ a ++ r1) ++ ":" ++ (l2 ++ b ++ r2))%string
        = mkPoint (JS.parseFloat (JS.trim a)) (JS.parseFloat (JS.trim b))).
Proof.
  intros Hwf. pose proof (wellFormed_numeric csv Hwf) as Hnum.
  pose proof (numeric_timed _ Hnum) as Htimed.
  split; [apply parsePoints_length|].
  split; [apply parsePoints_perm|].
  split; [rewrite <- (parsePoints_perm csv); exact Hnum|].
  split; [apply sort_sorted; exact Htimed|].
  split; [intros v; apply sort_stable; exact Htimed|].
  split; [|apply parseSegment_padded].
  intros segs Hne Hl ->. apply split_join; assumption.
Qed.

Lemma parsePoints_of_well_formed_text_witness :
  parsePoints " 4 : 2.2 ,1:2.1, 2 :3.5,1: 0.5"
  = [mkPoint 1 2.1; mkPoint 1 0.5; mkPoint 2 3.5; mkPoint 4 2.2]
  /\ StronglySorted time_le (parsePoints " 4 : 2.2 ,1:2.1, 2 :3.5,1: 0.5").
Proof.
  split; [vm_compute; reflexivity|].
  apply (parsePoints_of_well_formed_text " 4 : 2.2 ,1:2.1, 2 :3.5,1: 0.5").
  vm_compute. reflexivity.
Defined.

(** C1: the parser was meant to fall back to the empty sequence on a
    malformed text, but on a string nothing in its [try] block throws:
    ["abc"] parses to one sample whose time and concentration are NaN, and no
    text at all parses to the empty sequence.  The NaN reaches the later
    stages. *)
Theorem parsePoints_of_malformed_text :
  parsePoints "abc" = [mkPoint nan nan]
  /\ (forall csv, parsePoints csv <> [])
  /\ parsePoints "0:0,abc" = [mkPoint 0 0; mkPoint nan nan]
  /\ trapezoidalAUC (parsePoints "0:0,abc") = nan.
Proof.
  split; [reflexivity|]. split; [|split; reflexivity].
  intros csv H. apply (f_equal (@List.length Point)) in H.
  rewrite parsePoints_length in H.
  pose proof (split_nonempty "," csv).
  destruct (JS.split "," csv); [congruence | discriminate].
Qed.

(** ** Peak detection *)

Lemma find_split {A} (f : A -> bool) (l : list A) (x : A) :
  find f l = Some x ->
  exists l1 l2, l = l1 ++ x :: l2 /\ f x = true
                /\ forall y, In y l1 -> f y = false.
Proof.
  induction l as [|a l IH]; cbn [find]; [discriminate|].
  destruct (f a) eqn:Fa.
  - intros H. inversion H. subst. exists [], l. repeat split; auto.
    intros y [].
  - intros H. destruct (IH H) as (l1 & l2 & E & Fx & Hl1).
    exists (a :: l1), l2. subst l. repeat split; auto.
    intros y [->|Hy]; auto.
Qed.

Lemma forallb_false_ex {A} (f : A -> bool) (l : list A) :
  forallb f l = false -> exists x, In x l /\ f x = false.
Proof.
  induction l as [|a l IH]; cbn [forallb]; [discriminate|].
  destruct (f a) eqn:Fa; cbn [andb].
  - intros H. destruct (IH H) as (x & Hx & Fx). exists x. split; [right|]; auto.
  - intros _. exists a. split; [left|]; auto.
Qed.

Lemma peak_scan_after (p : Point) (post : list Point) :
  (forall q, In q post -> (c p <? c q) = false) ->
  fold_left peak_step post (c p, t p) = (c p, t p).
Proof.
  induction post as [|q post IH]; intros H; [reflexivity|].
  cbn [fold_left peak_step]. rewrite (H q) by (left; reflexivity).
  apply IH. intros q' Hq'. apply H. right. exact Hq'.
Qed.

Lemma peak_scan (pre : list Point) (p : Point) (post : list Point) :
  (forall q, In q pre -> is_nan (c q) = false -> (c q <? c p) = true) ->
  (forall q, In q post -> (c p <? c q) = false) ->
  forall m tm, (m <? c p) = true ->
  fold_left peak_step (pre ++ p :: post) (m, tm) = (c p, t p).
Proof.
  intros Hpre Hpost.
  induction pre as [|q pre IH]; intros m tm Hm.
  - cbn [app fold_left peak_step]. rewrite Hm. apply peak_scan_after, Hpost.
  - cbn [app fold_left peak_step].
    assert (Hpre' : forall q', In q' pre -> is_nan (c q') = false ->
                               (c q' <? c p) = true)
      by (intros q' Hq'; apply Hpre; right; exact Hq').
    destruct (m <? c q) eqn:Hq.
    + apply (IH Hpre'). apply Hpre; [left; reflexivity|].
      apply (FloatOrder.ltb_notnan _ _ Hq).
    + apply (IH Hpre'). exact Hm.
Qed.

(** C8, as amended: for a sequence whose maximum concentration is strictly
    positive the scan reports that maximum and the time of its first
    occurrence; for a sequence with no concentration above 0, and so for the
    empty sequence, it reports 0 at time 0; the component shows the result
    of this scan over the parsed samples. *)
Theorem peak_is_first_positive_maximum (pts : list Point) :
  (forall p, first_max pts = Some p -> (0 <? c p) = true ->
             peak pts = (c p, t p))
  /\ ((forall p, In p pts -> (0 <? c p) = false) -> peak pts = (0, 0))
  /\ peak [] = (0, 0)
  /\ (forall log st,
        (Cmax (calculate log st), Tmax (calculate log st))
        = peak (points (calculate log st))).
Proof.
  split; [|split; [|split; [reflexivity | intros; apply calculate_peak]]].
  2:{ intros H. exact (peak_scan_after (mkPoint 0 0) pts H). }
  intros p Hfirst Hpos.
  destruct (find_split _ _ _ Hfirst) as (pre & post & E & Hmax & Hpre).
  destruct (FloatOrder.ltb_notnan _ _ Hpos) as [_ Np].
  unfold is_max in Hmax. apply andb_prop in Hmax. destruct Hmax as [_ Hmax].
  rewrite forallb_forall in Hmax.
  unfold peak. rewrite E. apply peak_scan; [| |exact Hpos].
  - intros q Hq Nq. specialize (Hpre q Hq). unfold is_max, isNumber in Hpre.
    rewrite Nq in Hpre. cbn [negb andb] in Hpre.
    apply forallb_false_ex in Hpre. destruct Hpre as (q' & Hq' & Hlt).
    apply negb_false_iff in Hlt.
    apply (FloatOrder.ltb_leb_trans _ _ _ Hlt Np).
    apply negb_true_iff. apply Hmax. exact Hq'.
  - intros q Hq. apply negb_true_iff. apply Hmax.
    rewrite E. apply in_or_app. right. right. exact Hq.
Qed.

(** C8, the claim as stated fails: two samples tie at the maximum
    concentration 0, the first of them at time 1, and the time reported is
    0. *)
Lemma peak_of_tied_zero_maximum :
  let r := calculate ref_log (setPointsCsv "1:0,2:0" initialState) in
  points r = [mkPoint 1 0; mkPoint 2 0]
  /\ first_max (points r) = Some (mkPoint 1 0)
  /\ Cmax r = 0 /\ Tmax r = 0
  /\ Some (Tmax r) <> option_map t (first_max (points r)).
Proof.
  vm_compute. repeat split. intros E.
  apply (f_equal (fun o => match o with Some x => x =? 0 | None => true end))
    in E.
  vm_compute in E. discriminate.
Qed.

Lemma peak_is_first_positive_maximum_witness :
  peak [mkPoint 0 0; mkPoint 1 3.5; mkPoint 2 3.5; mkPoint 4 2.2] = (3.5, 1).
Proof.
  destruct (peak_is_first_positive_maximum
              [mkPoint 0 0; mkPoint 1 3.5; mkPoint 2 3.5; mkPoint 4 2.2])
    as (H & _).
  apply (H (mkPoint 1 3.5)); vm_compute; reflexivity.
Defined.

(** ** Concrete runs *)

(** The default text parses to its six samples, in the order of the text. *)
Example parsePoints_default :
  parsePoints (pointsCsv initialState)
  = [mkPoint 0 0; mkPoint 1 2.1; mkPoint 2 3.5; mkPoint 4 2.2;
     mkPoint 6 1.1; mkPoint 8 0.6].
Proof. reflexivity. Qed.

(** The results of the default form that do not depend on [Math.log]. *)
Example calculate_default (log : float -> float) :
  let r := calculate log initialState in
  auc r = 14.550000000000001
  /\ k_from_t12 r = Some 0.086625 /\ k_from_cl_vd r = Some 0.1
  /\ (Cmax r, Tmax r) = (3.5, 2) /\ lastC r = 0.6
  /\ LD r = 133.33333333333334 /\ MD_rate r = 8 /\ MD r = 160.
Proof. repeat split. Qed.

(** [parseFloat] on some literals and on texts that are not literals. *)
Example parseFloat_examples :
  map JS.parseFloat
    ["2.1"; " 0.6"; "-.5e1"; "5."; "1e-300"; "12px"; "1e400"; "-0";
     "Infinity"]%string
  = [2.1; 0.6; -5; 5; 1e-300; 12; infinity; -0; infinity]
  /\ map JS.parseFloat ["abc"; ""; "."; "-"; "e5"; "undefined"]%string
     = [nan; nan; nan; nan; nan; nan].
Proof. split; reflexivity. Qed.

(** C2, the claim as stated fails: with [Cl = 1e-300] and [Vd = 1e300] the
    quotient underflows, so the clearance-over-volume candidate is defined
    and is 0; the terminal-slope candidate is undefined; the selected rate is
    the half-life candidate, not the first defined one. *)
Lemma rate_selection_skips_zero_candidate :
  let st := setPointsCsv "" (setVd 1e300 (setCl 1e-300 initialState)) in
  let r := calculate ref_log st in
  k_est r = None
  /\ k_from_cl_vd r = Some 0
  /\ k_from_t12 r = Some 0.086625
  /\ first_defined [k_est r; k_from_cl_vd r; k_from_t12 r] = Some 0
  /\ k r = Some 0.086625
  /\ k r <> first_defined [k_est r; k_from_cl_vd r; k_from_t12 r].
Proof.
  vm_compute. repeat split. intros E.
  apply (f_equal (fun o => match o with Some x => x =? 0 | None => true end))
    in E.
  vm_compute in E. discriminate.
Qed.

Lemma rate_selection_priority_witness :
  k (calculate ref_log initialState)
  = k_est (calculate ref_log initialState).
Proof.
  destruct (rate_selection_priority ref_log initialState) as (_ & _ & H & _).
  rewrite (H 0.29919564786720104 0.1 0.086625);
    vm_compute; reflexivity.
Defined.

Lemma dose_outputs_witness :
  let r := calculate ref_log initialState in
  LD r = 133.33333333333334 /\ MD_rate r = 8 /\ MD r = 160.
Proof.
  pose proof (dose_outputs ref_log initialState) as H.
  vm_compute in H. vm_compute. tauto.
Defined.

(** C6, the claim as stated fails: with no usable sample and the default
    parameters the selected rate is 0.1 and the half-life is
    [0.693 / 0.1], not [Math.LN2 / 0.1]. *)
Lemma half_life_uses_the_literal_constant :
  let r := calculate ref_log (setPointsCsv "" initialState) in
  k r = Some 0.1
  /\ t_half r = Some 6.9299999999999988
  /\ Math_LN2 / 0.1 = 6.931471805599452
  /\ t_half r <> Some (Math_LN2 / 0.1).
Proof.
  vm_compute. repeat split. intros E.
  apply (f_equal (fun o => match o with
                           | Some x => x =? 6.931471805599452
                           | None => true
                           end)) in E.
  vm_compute in E. discriminate.
Qed.

Lemma half_life_and_extrapolated_auc_witness :
  let r := calculate ref_log initialState in
  t_half r = Some 2.3162101619459059 /\ aucInf r = Some 16.555376763589528.
Proof.
  destruct (half_life_and_extrapolated_auc ref_log initialState)
    as (H & _).
  destruct (H 0.29919564786720104) as [H1 H2];
    [vm_compute; reflexivity|].
  cbv zeta. rewrite H1, H2. vm_compute. split; reflexivity.
Defined.

Lemma candidate_rates_witness :
  let r := calculate ref_log initialState in
  k_from_t12 r = Some 0.086625 /\ k_from_cl_vd r = Some 0.1.
Proof.
  destruct (candidate_rates ref_log initialState)
    as (_ & _ & H1 & H2); try reflexivity.
  split; [apply H1 | apply H2]; reflexivity.
Defined.

Lemma unused_inputs_do_not_matter_witness :
  calculate ref_log (setKa 0.3 (setDose 250 (setRoute iv initialState)))
  = calculate ref_log initialState.
Proof.
  apply (unused_inputs_do_not_matter ref_log); reflexivity.
Defined.

(** ** More on binary64 arithmetic *)

Module FloatSign.

Import FloatOrder.

Lemma is_nan_true (x : float) : is_nan x = true -> x = nan.
Proof.
  intros H. destruct (Prim2SF x) as [s|s| |s m e] eqn:E.
  - rewrite Prim2SF_is_nan in H by (rewrite E; discriminate). discriminate.
  - rewrite Prim2SF_is_nan in H by (rewrite E; discriminate). discriminate.
  - rewrite <- (SF2Prim_Prim2SF x), E. reflexivity.
  - rewrite Prim2SF_is_nan in H by (rewrite E; discriminate). discriminate.
Qed.

Lemma add_nan_l (y : float) : nan + y = nan.
Proof. apply Prim2SF_inj. rewrite add_spec. reflexivity. Qed.

Lemma add_nan_r (x : float) : x + nan = nan.
Proof.
  apply Prim2SF_inj. rewrite add_spec.
  change (Prim2SF nan) with S754_nan. destruct (Prim2SF x); reflexivity.
Qed.

Lemma sub_nan_l (y : float) : nan - y = nan.
Proof. apply Prim2SF_inj. rewrite sub_spec. reflexivity. Qed.

Lemma sub_nan_r (x : float) : x - nan = nan.
Proof.
  apply Prim2SF_inj. rewrite sub_spec.
  change (Prim2SF nan) with S754_nan. destruct (Prim2SF x); reflexivity.
Qed.

Lemma mul_nan_l (y : float) : nan * y = nan.
Proof. apply Prim2SF_inj. rewrite mul_spec. reflexivity. Qed.

Lemma mul_nan_r (x : float) : x * nan = nan.
Proof.
  apply Prim2SF_inj. rewrite mul_spec.
  change (Prim2SF nan) with S754_nan. destruct (Prim2SF x); reflexivity.
Qed.

Lemma div_nan_l (y : float) : nan / y = nan.
Proof. apply Prim2SF_inj. rewrite div_spec. reflexivity. Qed.

Lemma not_negative_SFnn (x : float) : not_negative x <-> SFnn (Prim2SF x).
Proof.
  unfold not_negative. rewrite ltb_spec.
  change (Prim2SF 0) with (S754_zero false).
  destruct (Prim2SF x) as [[|]|[|]| |[|] m e]; cbn; intuition discriminate.
Qed.

Lemma binary_round_aux_SFnn (m e : Z) (l : location) :
  (0 <= m)%Z -> SFnn (binary_round_aux prec emax false m e l).
Proof.
  intros H.
  destruct (binary_round_aux_cases false m e l H) as [E|[E|(m' & e' & E)]];
    rewrite E; exact I.
Qed.

Lemma add_not_negative (x y : float) :
  not_negative x -> not_negative y -> not_negative (x + y).
Proof.
  rewrite !not_negative_SFnn, add_spec.
  destruct (Prim2SF x) as [[|]|[|]| |[|] mx ex],
           (Prim2SF y) as [[|]|[|]| |[|] my ey];
    cbn [SFnn]; intros Hx Hy; try contradiction; try exact I.
  unfold SF64add, SFadd. cbn [cond_Zopp]. cbv zeta.
  change (Zpos (fst (shl_align mx ex (Z.min ex ey)))
          + Zpos (fst (shl_align my ey (Z.min ex ey))))%Z
    with (Zpos (fst (shl_align mx ex (Z.min ex ey))
                + fst (shl_align my ey (Z.min ex ey)))).
  cbn [binary_normalize]. unfold binary_round.
  destruct (shl_align _ _ _) as [mz ez].
  apply binary_round_aux_SFnn. lia.
Qed.

Lemma mul_not_negative (x y : float) :
  not_negative x -> not_negative y -> not_negative (x * y).
Proof.
  rewrite !not_negative_SFnn, mul_spec.
  destruct (Prim2SF x) as [[|]|[|]| |[|] mx ex],
           (Prim2SF y) as [[|]|[|]| |[|] my ey];
    cbn [SFnn]; intros Hx Hy; try contradiction; try exact I.
  unfold SF64mul, SFmul. cbn [xorb]. apply binary_round_aux_SFnn. lia.
Qed.

Lemma div_not_negative (x y : float) :
  not_negative x -> (0 <? y) = true -> not_negative (x / y).
Proof.
  rewrite !not_negative_SFnn, div_spec, ltb_spec.
  change (Prim2SF 0) with (S754_zero false).
  destruct (Prim2SF x) as [[|]|[|]| |[|] mx ex],
           (Prim2SF y) as [[|]|[|]| |[|] my ey];
    cbn [SFnn]; intros Hx Hy; try contradiction; try discriminate;
    try exact I.
  unfold SF64div, SFdiv. cbn [xorb].
  pose proof (SFdiv_core_binary_nonneg (Zpos mx) ex (Zpos my) ey
                ltac:(lia) ltac:(lia)) as Hq.
  destruct (SFdiv_core_binary prec emax (Zpos mx) ex (Zpos my) ey)
    as [[q e] l].
  cbn [fst] in Hq. apply binary_round_aux_SFnn. exact Hq.
Qed.

Lemma sub_not_negative (x y : float) :
  (y <=? x) = true -> not_negative (x - y).
Proof.
  intros H. destruct (leb_notnan _ _ H) as [Ny Nx].
  unfold not_negative. rewrite sub_ltb_0 by assumption.
  rewrite leb_ord in H by assumption.
  apply Z.ltb_ge. apply Z.leb_le in H. exact H.
Qed.

(** Once a maximum [m] is below [x], what does not exceed [m] does not
    exceed [x]. *)
Lemma not_above_mono (m x y : float) :
  (m <? x) = true -> (m <? y) = false -> (x <? y) = false.
Proof.
  intros H1 H2. destruct (ltb_notnan _ _ H1) as [Nm Nx].
  destruct (is_nan y) eqn:Ny.
  - rewrite (is_nan_true y Ny). rewrite ltb_spec.
    change (Prim2SF nan) with S754_nan. destruct (Prim2SF x); reflexivity.
  - rewrite ltb_ord in * by assumption.
    apply Z.ltb_ge. apply Z.ltb_lt in H1. apply Z.ltb_ge in H2. lia.
Qed.

Lemma leb_ltb_trans (x y z : float) :
  (x <=? y) = true -> (y <? z) = true -> (x <=? z) = true.
Proof.
  intros H1 H2. destruct (leb_notnan _ _ H1) as [Nx Ny].
  destruct (ltb_notnan _ _ H2) as [_ Nz].
  rewrite leb_ord in * by assumption. rewrite ltb_ord in H2 by assumption.
  apply Z.leb_le. apply Z.leb_le in H1. apply Z.ltb_lt in H2. lia.
Qed.

End FloatSign.

(** ** What the peak scan guarantees *)

Lemma peak_step_inv (s : float * float) (done : list Point) (q : Point) :
  peak_inv s done -> peak_inv (peak_step s q) (done ++ [q]).
Proof.
  destruct s as [m tm]. unfold peak_inv, peak_step. cbn [fst].
  intros (H0 & Hle & Hat).
  destruct (m <? c q) eqn:E; cbn [fst].
  - split; [exact (FloatSign.leb_ltb_trans _ _ _ H0 E)|]. split.
    + apply Forall_app. split.
      * eapply Forall_impl; [|exact Hle]. cbn beta. intros a Ha.
        exact (FloatSign.not_above_mono _ _ _ E Ha).
      * constructor; [|constructor].
        destruct (FloatOrder.ltb_notnan _ _ E) as [_ Nq].
        rewrite FloatOrder.ltb_ord by assumption. apply Z.ltb_irrefl.
    + right. exists q. split; [apply in_or_app; right; left|]; reflexivity.
  - split; [exact H0|]. split.
    + apply Forall_app. split; [exact Hle|]. constructor; [exact E|constructor].
    + destruct Hat as [Hat|(p & Hp & Hat)]; [left; exact Hat|].
      right. exists p. split; [apply in_or_app; left|]; assumption.
Qed.

Lemma peak_fold_inv (l : list Point) : forall s done,
  peak_inv s done -> peak_inv (fold_left peak_step l s) (done ++ l).
Proof.
  induction l as [|q l IH]; intros s done H; cbn [fold_left].
  - rewrite app_nil_r. exact H.
  - replace (done ++ q :: l) with ((done ++ [q]) ++ l)
      by (rewrite <- app_assoc; reflexivity).
    apply IH. apply peak_step_inv. exact H.
Qed.

(** X1: whatever the samples are (negative or NaN concentrations included),
    the reported peak concentration is a number that is not below 0, no
    sample's concentration is above it, and the reported pair is either
    (0, 0) or the concentration and the time of one of the samples. *)
Theorem peak_bounds_every_sample (pts : list Point) :
  (0 <=? fst (peak pts)) = true
  /\ Forall (fun q => (fst (peak pts) <? c q) = false) pts
  /\ (peak pts = (0, 0) \/ exists p, In p pts /\ peak pts = (c p, t p)).
Proof.
  apply (peak_fold_inv pts (0, 0) []).
  split; [reflexivity|]. split; [constructor | left; reflexivity].
Qed.

(** ** More on the area under the curve *)

Lemma fold_add_not_negative (l : list float) : forall acc,
  not_negative acc -> Forall not_negative l ->
  not_negative (fold_left add l acc).
Proof.
  induction l as [|x l IH]; intros acc Ha Hl; cbn [fold_left]; [exact Ha|].
  inversion Hl as [|? ? Hx Hl']; subst.
  apply IH; [|exact Hl']. apply FloatSign.add_not_negative; assumption.
Qed.

Lemma pair_areas_not_negative (pts : list Point) :
  StronglySorted time_le pts ->
  Forall (fun p => not_negative (c p)) pts ->
  Forall not_negative (pair_areas pts).
Proof.
  intros Hs. induction Hs as [|p rest Hs IH Hp]; intros Hc; [constructor|].
  inversion Hc as [|? ? Cp Crest]; subst.
  destruct rest as [|q rest]; [constructor|].
  cbn [pair_areas]. constructor; [|apply IH; exact Crest].
  inversion Crest as [|? ? Cq _]; subst.
  inversion Hp as [|? ? Hpq _]; subst.
  apply FloatSign.mul_not_negative.
  - apply FloatSign.div_not_negative; [|reflexivity].
    apply FloatSign.add_not_negative; assumption.
  - apply FloatSign.sub_not_negative. exact Hpq.
Qed.

Lemma trapezoidalAUC_nonneg (pts : list Point) :
  StronglySorted time_le pts ->
  Forall (fun p => not_negative (c p)) pts ->
  not_negative (trapezoidalAUC pts).
Proof.
  intros Hs Hc. unfold trapezoidalAUC. rewrite auc_loop.
  apply fold_add_not_negative; [reflexivity|].
  apply pair_areas_not_negative; assumption.
Qed.

(** X2: for samples in ascending order of time none of whose concentrations
    is negative, the trapezoidal AUC is never negative (it is a number not
    below 0, or NaN); so it is for the samples of a text all of whose
    segments have a numeric time and a concentration that is not negative. *)
Theorem trapezoidalAUC_not_negative :
  (forall pts,
     StronglySorted time_le pts ->
     Forall (fun p => not_negative (c p)) pts ->
     not_negative (trapezoidalAUC pts))
  /\ (forall csv,
        Forall (fun p => timed p /\ not_negative (c p))
          (map parseSegment (JS.split "," csv)) ->
        not_negative (trapezoidalAUC (parsePoints csv))).
Proof.
  split; [exact trapezoidalAUC_nonneg|].
  intros csv H. apply trapezoidalAUC_nonneg.
  - apply sort_sorted. eapply Forall_impl; [|exact H]. cbn beta. tauto.
  - rewrite <- (parsePoints_perm csv).
    eapply Forall_impl; [|exact H]. cbn beta. tauto.
Qed.

Lemma trapezoidalAUC_not_negative_witness :
  not_negative (trapezoidalAUC (parsePoints (pointsCsv initialState))).
Proof.
  destruct trapezoidalAUC_not_negative as [_ H].
  apply H. vm_compute. repeat constructor.
Defined.

Lemma fold_add_nan (l : list float) : fold_left add l nan = nan.
Proof.
  induction l as [|x l IH]; cbn [fold_left]; [reflexivity|].
  rewrite FloatSign.add_nan_l. exact IH.
Qed.

Lemma fold_add_In_nan (l : list float) : forall acc,
  In nan l -> fold_left add l acc = nan.
Proof.
  induction l as [|x l IH]; intros acc H; [contradiction|].
  cbn [fold_left]. destruct H as [->|H].
  - rewrite FloatSign.add_nan_r. apply fold_add_nan.
  - apply IH. exact H.
Qed.

Lemma area_nan_l (p q : Point) :
  broken p -> (c q + c p) / 2 * (t q - t p) = nan.
Proof.
  intros [H|H]; rewrite (FloatSign.is_nan_true _ H).
  - rewrite FloatSign.sub_nan_r. apply FloatSign.mul_nan_r.
  - rewrite FloatSign.add_nan_r, FloatSign.div_nan_l.
    apply FloatSign.mul_nan_l.
Qed.

Lemma area_nan_r (p q : Point) :
  broken q -> (c q + c p) / 2 * (t q - t p) = nan.
Proof.
  intros [H|H]; rewrite (FloatSign.is_nan_true _ H).
  - rewrite FloatSign.sub_nan_l. apply FloatSign.mul_nan_r.
  - rewrite FloatSign.add_nan_l, FloatSign.div_nan_l.
    apply FloatSign.mul_nan_l.
Qed.

Lemma pair_areas_In_nan (pts : list Point) (p : Point) :
  In p pts -> (2 <= List.length pts)%nat -> broken p ->
  In nan (pair_areas pts).
Proof.
  intros Hin Hlen Hp. induction pts as [|x rest IH]; [contradiction|].
  destruct rest as [|y rest]; [cbn [List.length] in Hlen; lia|].
  cbn [pair_areas]. destruct Hin as [->|Hin].
  - left. apply area_nan_l. exact Hp.
  - destruct rest as [|z rest].
    + destruct Hin as [->|[]]. left. apply area_nan_r. exact Hp.
    + right. apply IH; [exact Hin|cbn [List.length]; lia].
Qed.

Lemma trapezoidalAUC_nan (pts : list Point) (p : Point) :
  In p pts -> (2 <= List.length pts)%nat -> broken p ->
  trapezoidalAUC pts = nan.
Proof.
  intros Hin Hlen Hp. unfold trapezoidalAUC. rewrite auc_loop.
  apply fold_add_In_nan. exact (pair_areas_In_nan pts p Hin Hlen Hp).
Qed.

Lemma parsePoints_auc_nan (csv : string) :
  wellFormed csv = false ->
  (2 <= List.length (JS.split "," csv))%nat ->
  trapezoidalAUC (parsePoints csv) = nan.
Proof.
  intros Hwf Hlen. unfold wellFormed in Hwf.
  apply forallb_false_ex in Hwf. destruct Hwf as (seg & Hseg & Hbad).
  rewrite wellFormedSegment_numeric in Hbad.
  apply (trapezoidalAUC_nan _ (parseSegment seg)).
  - apply (Permutation_in _ (parsePoints_perm csv)).
    apply in_map. exact Hseg.
  - rewrite parsePoints_length. exact Hlen.
  - unfold numeric, isNumber in Hbad. unfold broken.
    destruct (is_nan (t (parseSegment seg))); [left; reflexivity|].
    destruct (is_nan (c (parseSegment seg))); [right; reflexivity|].
    discriminate.
Qed.

(** X3: in a sequence of two or more samples, one sample whose time or
    concentration is NaN makes the whole AUC NaN; in particular a text of
    two or more segments one of which is not well formed gives the AUC
    NaN. *)
Theorem trapezoidalAUC_of_broken_sample :
  (forall pts p,
     In p pts -> (2 <= List.length pts)%nat -> broken p ->
     trapezoidalAUC pts = nan)
  /\ (forall csv,
        wellFormed csv = false ->
        (2 <= List.length (JS.split "," csv))%nat ->
        trapezoidalAUC (parsePoints csv) = nan).
Proof.
  split; [exact trapezoidalAUC_nan | exact parsePoints_auc_nan].
Qed.

Lemma trapezoidalAUC_of_broken_sample_witness :
  trapezoidalAUC (parsePoints "0:0,1:2.1,2;3.5,4:2.2") = nan.
Proof.
  destruct trapezoidalAUC_of_broken_sample as [_ H].
  apply H; [reflexivity | cbn; lia].
Defined.

Lemma pair_areas_cons (x y : Point) (r : list Point) :
  pair_areas (x :: y :: r)
  = (c y + c x) / 2 * (t y - t x) :: pair_areas (y :: r).
Proof. reflexivity. Qed.

Lemma pair_areas_snoc (l : list Point) (p q : Point) :
  pair_areas (l ++ [p; q])
  = pair_areas (l ++ [p]) ++ [(c q + c p) / 2 * (t q - t p)].
Proof.
  induction l as [|x l IH]; [reflexivity|].
  destruct l as [|y l]; [reflexivity|].
  cbn [app] in *. rewrite !pair_areas_cons, IH. reflexivity.
Qed.

(** X4: appending one sample to a non-empty sequence adds to its AUC the
    one trapezoid between the former last sample and the new one. *)
Theorem trapezoidalAUC_of_appended_sample (l : list Point) (p q : Point) :
  trapezoidalAUC (l ++ [p; q])
  = trapezoidalAUC (l ++ [p]) + (c q + c p) / 2 * (t q - t p).
Proof.
  unfold trapezoidalAUC. rewrite !auc_loop, pair_areas_snoc.
  rewrite fold_left_app. reflexivity.
Qed.

(** ** More on the point parser *)

Lemma leb_antisym_eqb (x y : float) :
  (x <=? y) = true -> (y <=? x) = true -> (x =? y) = true.
Proof.
  intros H1 H2. destruct (FloatOrder.leb_notnan _ _ H1) as [Nx Ny].
  rewrite FloatOrder.leb_ord in * by assumption.
  rewrite FloatOrder.eqb_ord by assumption.
  apply Z.eqb_eq. apply Z.leb_le in H1, H2. lia.
Qed.

Lemma insert_after_all (x : Point) (l : list Point) :
  Forall (fun y => time_le y x) l -> JS.insert byTime x l = l ++ [x].
Proof.
  induction l as [|y l IH]; intros H; [reflexivity|].
  inversion H as [|? ? Hy Hl]; subst. cbn [JS.insert app].
  destruct (FloatOrder.leb_notnan _ _ Hy) as [Ny Nx].
  rewrite byTime_below by assumption.
  rewrite FloatOrder.ltb_ord by assumption.
  unfold time_le in Hy. rewrite FloatOrder.leb_ord in Hy by assumption.
  apply Z.leb_le in Hy.
  destruct (Z.ltb_spec (ordZ (t x)) (ordZ (t y))); [lia|].
  rewrite (IH Hl). reflexivity.
Qed.

Lemma sorted_app_below (acc : list Point) (x : Point) (l : list Point) :
  StronglySorted time_le (acc ++ x :: l) ->
  Forall (fun y => time_le y x) acc.
Proof.
  induction acc as [|a acc IH]; intros H; [constructor|].
  cbn [app] in H. inversion H as [|? ? Hs Ha]; subst.
  constructor; [|apply IH; exact Hs].
  rewrite Forall_forall in Ha. apply Ha. apply in_or_app. right. left.
  reflexivity.
Qed.

Lemma sort_fold_sorted_input (l : list Point) : forall acc,
  StronglySorted time_le (acc ++ l) ->
  fold_left (fun acc x => JS.insert byTime x acc) l acc = acc ++ l.
Proof.
  induction l as [|x l IH]; intros acc H; cbn [fold_left].
  - rewrite app_nil_r. reflexivity.
  - rewrite insert_after_all by exact (sorted_app_below _ _ _ H).
    rewrite IH; rewrite <- app_assoc; [reflexivity | exact H].
Qed.

(** X5: a text whose segments are already in ascending order of time
    parses to its samples in the order of the text. *)
Theorem parsePoints_keeps_sorted_text (csv : string) :
  StronglySorted time_le (map parseSegment (JS.split "," csv)) ->
  parsePoints csv = map parseSegment (JS.split "," csv).
Proof.
  intros H. unfold parsePoints, JS.sort.
  apply (sort_fold_sorted_input _ []). exact H.
Qed.

Lemma parsePoints_keeps_sorted_text_witness :
  parsePoints "0:0, 1:2.1, 1:3, 4:2.2"
  = [mkPoint 0 0; mkPoint 1 2.1; mkPoint 1 3; mkPoint 4 2.2].
Proof.
  rewrite parsePoints_keeps_sorted_text; [reflexivity|].
  vm_compute. repeat (constructor; try reflexivity).
Defined.

Lemma sorted_perm_unique (l1 : list Point) : forall l2,
  StronglySorted time_le l1 -> StronglySorted time_le l2 ->
  Permutation l1 l2 ->
  (forall a b, In a l1 -> In b l1 -> (t a =? t b) = true -> a = b) ->
  l1 = l2.
Proof.
  induction l1 as [|a l1 IH]; intros l2 S1 S2 P Hinj.
  - apply Permutation_nil in P. symmetry. exact P.
  - destruct l2 as [|b l2].
    + apply Permutation_sym, Permutation_nil in P. discriminate.
    + inversion S1 as [|? ? S1' A1]; subst.
      inversion S2 as [|? ? S2' B2]; subst.
      assert (E : a = b).
      { assert (Ha : In a (b :: l2))
          by (apply (Permutation_in _ P); left; reflexivity).
        assert (Hb : In b (a :: l1))
          by (apply (Permutation_in _ (Permutation_sym P)); left;
              reflexivity).
        destruct Ha as [Ha|Ha]; [symmetry; exact Ha|].
        destruct Hb as [Hb|Hb]; [exact Hb|].
        rewrite Forall_forall in A1, B2.
        apply Hinj; [left; reflexivity | right; exact Hb|].
        apply leb_antisym_eqb; [apply A1; exact Hb | apply B2; exact Ha]. }
      subst b. f_equal. apply IH; try assumption.
      * exact (Permutation_cons_inv P).
      * intros x y Hx Hy. apply Hinj; right; assumption.
Qed.

(** X6: the order in which the pairs are typed does not matter: two texts
    whose segments parse to the same samples up to order, with numeric times
    and no two different samples at the same time, parse to the same
    sequence. *)
Theorem parsePoints_ignores_segment_order (csv1 csv2 : string) :
  let segs1 := map parseSegment (JS.split "," csv1) in
  let segs2 := map parseSegment (JS.split "," csv2) in
  Permutation segs1 segs2 ->
  Forall timed segs1 ->
  (forall a b, In a segs1 -> In b segs1 -> (t a =? t b) = true -> a = b) ->
  parsePoints csv1 = parsePoints csv2.
Proof.
  intros segs1 segs2 P T Hinj.
  assert (T2 : Forall timed segs2) by (rewrite <- P; exact T).
  apply sorted_perm_unique.
  - apply sort_sorted. exact T.
  - apply sort_sorted. exact T2.
  - rewrite <- (parsePoints_perm csv1), <- (parsePoints_perm csv2). exact P.
  - intros a b Ha Hb. apply Hinj.
    + apply (Permutation_in _ (Permutation_sym (parsePoints_perm csv1))).
      exact Ha.
    + apply (Permutation_in _ (Permutation_sym (parsePoints_perm csv1))).
      exact Hb.
Qed.

Lemma parsePoints_ignores_segment_order_witness :
  parsePoints "2:1,1:5" = parsePoints "1:5, 2:1".
Proof.
  apply parsePoints_ignores_segment_order.
  - apply perm_swap.
  - repeat constructor.
  - intros a b [<-|[<-|[]]] [<-|[<-|[]]] H; try reflexivity;
      vm_compute in H; discriminate.
Defined.

Local Open Scope string_scope.

(** X7: a segment without a colon parses to a sample whose concentration is
    NaN (its time is parsed as usual), and whatever follows a second colon
    is ignored. *)
Theorem parseSegment_colons (a b rest : string) :
  lacks ":" a = true -> lacks ":" b = true ->
  parseSegment a = mkPoint (JS.parseFloat (JS.trim a)) nan
  /\ parseSegment (a ++ ":" ++ b ++ ":" ++ rest) = parseSegment (a ++ ":" ++ b).
Proof.
  intros Ha Hb. unfold parseSegment. split.
  - rewrite split_lacks by exact Ha. reflexivity.
  - change (":" ++ b ++ ":" ++ rest) with (String ":" (b ++ String ":" rest)).
    change (":" ++ b) with (String ":" b).
    rewrite (split_app ":" a (b ++ String ":" rest)) by exact Ha.
    rewrite (split_app ":" b rest) by exact Hb.
    rewrite (split_app ":" a b) by exact Ha.
    rewrite (split_lacks ":" b) by exact Hb.
    reflexivity.
Qed.

Lemma parseSegment_colons_witness :
  parseSegment "7" = mkPoint 7 nan
  /\ parseSegment "7:2:3" = parseSegment "7:2".
Proof.
  exact (parseSegment_colons "7" "2" "3" eq_refl eq_refl).
Defined.

Local Close Scope string_scope.

Lemma sorted_last_above (l : list Point) (p : Point) :
  StronglySorted time_le (l ++ [p]) -> Forall (fun q => time_le q p) l.
Proof. apply sorted_app_below. Qed.

Lemma lastConc_snoc (l : list Point) (p : Point) : lastConc (l ++ [p]) = c p.
Proof.
  unfold lastConc. rewrite length_app. cbn [List.length].
  rewrite Nat.add_1_r. unfold at_. rewrite app_nth2 by lia.
  rewrite Nat.sub_diag. reflexivity.
Qed.

Section MoreComponentFacts.

Variable Math_log : float -> float.

(** X8: for a text whose segments all have a numeric time, the last
    concentration that the extrapolated AUC uses is the concentration of a
    parsed sample that no parsed sample is later than. *)
Theorem lastC_is_of_a_latest_sample (st : State) :
  Forall timed (map parseSegment (JS.split "," (pointsCsv st))) ->
  let r := calculate Math_log st in
  exists p, In p (points r) /\ lastC r = c p
            /\ Forall (fun q => time_le q p) (points r).
Proof.
  intros T r.
  assert (Hl : lastC r = lastConc (points r)).
  { unfold r, calculate. destruct (peak _). reflexivity. }
  assert (Hp : points r = parsePoints (pointsCsv st))
    by apply calculate_points.
  rewrite Hl, Hp.
  pose proof (sort_sorted _ T) as Hs. fold (parsePoints (pointsCsv st)) in Hs.
  assert (Tp : Forall timed (parsePoints (pointsCsv st)))
    by (rewrite <- (parsePoints_perm (pointsCsv st)); exact T).
  pose proof (parsePoints_length (pointsCsv st)) as Hlen.
  pose proof (split_nonempty "," (pointsCsv st)) as Hne.
  destruct (parsePoints (pointsCsv st)) as [|x l] using rev_ind.
  - destruct (JS.split "," (pointsCsv st)); [congruence|discriminate].
  - clear IHl. exists x. split; [apply in_or_app; right; left; reflexivity|].
    split; [apply lastConc_snoc|].
    apply Forall_app. split; [exact (sorted_last_above _ _ Hs)|].
    constructor; [|constructor].
    apply Forall_app in Tp. destruct Tp as [_ Tx].
    inversion Tx; subst. apply FloatOrder.leb_refl. assumption.
Qed.

(** X9: a text without a comma is one sample: its AUC is 0 and its
    terminal slope is undefined, so the rate comes from the parameters. *)
Theorem single_segment_text (st : State) :
  lacks "," (pointsCsv st) = true ->
  let r := calculate Math_log st in
  points r = [parseSegment (pointsCsv st)]
  /\ auc r = 0
  /\ k_est r = None
  /\ k r = first_truthy [k_from_cl_vd r; k_from_t12 r]
  /\ lastC r = c (parseSegment (pointsCsv st)).
Proof.
  intros H r.
  assert (Hp : points r = [parseSegment (pointsCsv st)]).
  { unfold r. rewrite calculate_points. unfold parsePoints.
    rewrite split_lacks by exact H. reflexivity. }
  assert (He : k_est r = None).
  { unfold r. rewrite calculate_k_est. fold r. rewrite Hp.
    unfold estimateTerminalK. cbn [filter].
    destruct (0 <? c (parseSegment (pointsCsv st))); reflexivity. }
  split; [exact Hp|]. split; [|split; [exact He|split]].
  - unfold r. rewrite calculate_auc. fold r. rewrite Hp. reflexivity.
  - unfold r. rewrite calculate_k. fold r. rewrite or_opt_chain, He.
    reflexivity.
  - assert (Hl : lastC r = lastConc (points r)).
    { unfold r, calculate. destruct (peak _). reflexivity. }
    rewrite Hl, Hp. reflexivity.
Qed.

Lemma filter_all {A} (f : A -> bool) (l : list A) :
  Forall (fun x => f x = true) l -> filter f l = l.
Proof.
  induction 1 as [|x l Hx _ IH]; [reflexivity|].
  cbn [filter]. rewrite Hx, IH. reflexivity.
Qed.

Lemma estimateTerminalK_same_window (pts pts' : list Point) :
  Nat.ltb (List.length (filter (fun p => 0 <? c p) pts)) 2
  = Nat.ltb (List.length (filter (fun p => 0 <? c p) pts')) 2 ->
  JS.slice_last 4 (filter (fun p => 0 <? c p) pts)
  = JS.slice_last 4 (filter (fun p => 0 <? c p) pts') ->
  estimateTerminalK Math_log pts = estimateTerminalK Math_log pts'.
Proof.
  intros H1 H2. unfold estimateTerminalK. rewrite H1, H2. reflexivity.
Qed.

(** X10: only the last four samples of concentration above 0 matter to the
    terminal slope: the estimate of a sequence is the estimate of that
    window, and samples of concentration 0, negative or NaN never change
    it. *)
Theorem estimateTerminalK_window (pts : list Point) :
  let positive := filter (fun p => 0 <? c p) pts in
  estimateTerminalK Math_log pts
  = estimateTerminalK Math_log (last_n 4 positive)
  /\ estimateTerminalK Math_log pts = estimateTerminalK Math_log positive.
Proof.
  intros positive.
  assert (Hpos : Forall (fun p => (0 <? c p) = true) positive).
  { apply Forall_forall. intros p Hp. apply filter_In in Hp. apply Hp. }
  destruct (last_n_suffix 4 positive) as [[front Hfront] Hlen].
  assert (Hw : filter (fun p => 0 <? c p) (last_n 4 positive)
               = last_n 4 positive).
  { apply filter_all. rewrite Hfront in Hpos.
    apply Forall_app in Hpos. apply Hpos. }
  split.
  - apply estimateTerminalK_same_window; fold positive; rewrite Hw.
    + rewrite Hlen.
      destruct (Nat.ltb_spec (List.length positive) 2); symmetry;
        [apply Nat.ltb_lt | apply Nat.ltb_ge]; lia.
    + rewrite (slice_last_last_n 4 positive).
      unfold JS.slice_last. rewrite Hlen.
      replace (Nat.min 4 (List.length positive) - 4)%nat with 0%nat by lia.
      reflexivity.
  - apply estimateTerminalK_same_window; fold positive;
      rewrite (filter_all _ _ Hpos); reflexivity.
Qed.

End MoreComponentFacts.

Lemma lastC_is_of_a_latest_sample_witness :
  let r := calculate ref_log initialState in
  exists p, In p (points r) /\ lastC r = c p
            /\ Forall (fun q => time_le q p) (points r).
Proof.
  apply (lastC_is_of_a_latest_sample ref_log initialState).
  vm_compute. repeat constructor.
Defined.

Lemma single_segment_text_witness :
  let r := calculate ref_log (setPointsCsv "3:1.5" initialState) in
  points r = [mkPoint 3 1.5] /\ auc r = 0 /\ k_est r = None
  /\ k r = Some 0.1 /\ lastC r = 1.5.
Proof.
  pose proof (single_segment_text ref_log
                (setPointsCsv "3:1.5" initialState) eq_refl) as H.
  cbv zeta in H. destruct H as (H1 & H2 & H3 & H4 & H5).
  cbv zeta. rewrite H1, H2, H3, H4, H5. repeat split.
Defined.

(** ** The form as a state machine *)

Section FormFacts.

Variable Math_log : float -> float.

Lemma edit_keeps_results (st : State) (ev : Event) :
  is_submit ev = false -> results (handle Math_log st ev) = results st.
Proof. destruct ev; intros H; try reflexivity. discriminate. Qed.

Lemma edits_keep_results (evs : list Event) : forall st,
  forallb (fun ev => negb (is_submit ev)) evs = true ->
  results (run Math_log evs st) = results st.
Proof.
  unfold run. induction evs as [|ev evs IH]; intros st H; [reflexivity|].
  cbn [forallb] in H. apply andb_prop in H. destruct H as [Hev Hevs].
  cbn [fold_left]. rewrite (IH _ Hevs).
  apply edit_keeps_results. apply negb_true_iff. exact Hev.
Qed.

(** X11: editing the fields never changes the results on display: after any
    sequence of events the results are those computed from the fields as
    they were at the last submission, and there are none before the first
    one. *)
Theorem results_are_of_the_last_submission (before after : list Event)
    (st : State) :
  forallb (fun ev => negb (is_submit ev)) after = true ->
  results (run Math_log (before ++ Submit :: after) st)
  = Some (calculate Math_log (run Math_log before st))
  /\ results (run Math_log after st) = results st.
Proof.
  intros H. split; [|apply edits_keep_results; exact H].
  unfold run. rewrite fold_left_app. cbn [fold_left].
  fold (run Math_log before st).
  fold (run Math_log after
          (handle Math_log (run Math_log before st) Submit)).
  rewrite (edits_keep_results _ _ H). reflexivity.
Qed.

(** X12: a numeric field left blank, or holding a text that is not a
    number, counts as absent: the half-life candidate (for [t12]) or the
    clearance-over-volume candidate (for [Cl] or [Vd]) is undefined, and
    the doses are divided by 1 (for [F]) or multiplied by 1 (for [tau]).
    A blank text is read as 0. *)
Theorem blank_field_counts_as_absent (st : State) (v : string) :
  JS.truthy (JSNum.toNumber v) = false ->
  k_from_t12 (calculate Math_log (handle Math_log st (ChangeT12 v))) = None
  /\ k_from_cl_vd (calculate Math_log (handle Math_log st (ChangeCl v)))
     = None
  /\ k_from_cl_vd (calculate Math_log (handle Math_log st (ChangeVd v)))
     = None
  /\ LD (calculate Math_log (handle Math_log st (ChangeF v)))
     = cssTarget st * Vd st / 1
  /\ (let r := calculate Math_log (handle Math_log st (ChangeTau v)) in
      MD r = MD_rate r * 1 / JS.or (F st) 1)
  /\ (all_ws v = true -> JSNum.toNumber v = 0).
Proof.
  intros H. cbn [handle].
  rewrite calculate_k_from_t12, !calculate_k_from_cl_vd, calculate_LD.
  cbn [t12 Cl Vd F cssTarget setT12 setCl setVd setF].
  unfold JS.or. rewrite !H. cbn [andb]. rewrite andb_false_r.
  repeat split.
  - cbv zeta. rewrite calculate_MD. cbn [tau F setTau].
    unfold JS.or at 1. rewrite H. reflexivity.
  - intros Hws. unfold JSNum.toNumber, JS.trim.
    rewrite (trim_start_ws v Hws). reflexivity.
Qed.

End FormFacts.

Lemma blank_field_counts_as_absent_witness :
  k_from_t12 (calculate ref_log (handle ref_log initialState (ChangeT12 "")))
  = None.
Proof.
  apply (blank_field_counts_as_absent ref_log initialState "").
  reflexivity.
Defined.

Lemma results_are_of_the_last_submission_witness :
  results (run ref_log [ChangeCl "5"; Submit; ChangeF "0.9"; ChangeTau "8"]
             initialState)
  = Some (calculate ref_log (setCl 5 initialState)).
Proof.
  apply (results_are_of_the_last_submission ref_log [ChangeCl "5"]
           [ChangeF "0.9"; ChangeTau "8"] initialState).
  reflexivity.
Defined.
(** ** What is displayed *)

Local Open Scope string_scope.

Lemma length_append (a b : string) :
  String.length (a ++ b) = (String.length a + String.length b)%nat.
Proof. induction a as [|x a IH]; cbn; [reflexivity | now rewrite IH]. Qed.

Lemma length_zeros (n : nat) : String.length (JSFmt.zeros n) = n.
Proof. induction n as [|n IH]; cbn; [reflexivity | now rewrite IH]. Qed.

Lemma length_drop (n : nat) : forall s,
  String.length (JSFmt.drop n s) = (String.length s - n)%nat.
Proof.
  induction n as [|n IH]; intros [|a s]; cbn; try reflexivity. apply IH.
Qed.

Lemma all_digits_app (a b : string) :
  all_digits (a ++ b) = all_digits a && all_digits b.
Proof.
  induction a as [|x a IH]; cbn; [reflexivity|].
  rewrite IH. apply andb_assoc.
Qed.

Lemma all_digits_zeros (n : nat) : all_digits (JSFmt.zeros n) = true.
Proof. induction n as [|n IH]; cbn; [reflexivity | exact IH]. Qed.

Lemma all_digits_take (n : nat) : forall s,
  all_digits s = true -> all_digits (JSFmt.take n s) = true.
Proof.
  induction n as [|n IH]; intros [|a s]; cbn; try reflexivity.
  intros H. apply andb_prop in H. destruct H as [Ha Hs].
  rewrite Ha. exact (IH s Hs).
Qed.

Lemma all_digits_drop (n : nat) : forall s,
  all_digits s = true -> all_digits (JSFmt.drop n s) = true.
Proof.
  induction n as [|n IH]; intros [|a s]; cbn; try (intros H; exact H).
  intros H. apply andb_prop in H. destruct H as [_ Hs]. exact (IH s Hs).
Qed.

Lemma take_drop (n : nat) : forall s, JSFmt.take n s ++ JSFmt.drop n s = s.
Proof.
  induction n as [|n IH]; intros [|a s]; cbn; try reflexivity.
  now rewrite IH.
Qed.

Lemma all_digits_of_uint (d : Decimal.uint) :
  all_digits (NilEmpty.string_of_uint d) = true.
Proof. induction d; cbn; [reflexivity | exact IHd..]. Qed.

Lemma all_digits_digits (n : Z) : all_digits (JSFmt.digits n) = true.
Proof.
  unfold JSFmt.digits, NilZero.string_of_uint.
  destruct (N.to_uint (Z.to_N n)) eqn:E; try reflexivity;
    rewrite <- E; apply all_digits_of_uint.
Qed.

Lemma digits_starts (n : Z) : starts_with_digit (JSFmt.digits n) = true.
Proof.
  unfold JSFmt.digits, NilZero.string_of_uint.
  destruct (N.to_uint (Z.to_N n)); reflexivity.
Qed.

Lemma starts_app (a b : string) :
  starts_with_digit a = true -> starts_with_digit (a ++ b) = true.
Proof. destruct a; [discriminate | intros H; exact H]. Qed.

Lemma starts_take (n : nat) (s : string) :
  starts_with_digit s = true ->
  starts_with_digit (JSFmt.take (S n) s) = true.
Proof. destruct s; [discriminate | intros H; exact H]. Qed.

Lemma starts_not_dash (s : string) (sign : bool) :
  starts_with_digit s = true ->
  (if sign then "-" else "") ++ s <> "-".
Proof.
  destruct s as [|a s]; [discriminate|]. intros H.
  destruct sign; cbn; [discriminate|].
  intros E. inversion E. subst. discriminate.
Qed.

Lemma positive_toString_starts (x : float) (m e : Z) :
  starts_with_digit (JSFmt.positive_toString x m e) = true.
Proof.
  unfold JSFmt.positive_toString.
  destruct (JSFmt.shortest _ _ _ _ _) as [[s k] n].
  pose proof (digits_starts s) as Hd.
  destruct ((k <=? n)%Z && (n <=? 21)%Z); [apply starts_app; exact Hd|].
  destruct ((0 <? n)%Z && (n <=? 21)%Z) eqn:E.
  - apply andb_prop in E. destruct E as [E _]. apply Z.ltb_lt in E.
    destruct (Z.to_nat n) as [|j] eqn:J; [lia|].
    apply starts_app, starts_take. exact Hd.
  - destruct ((-6 <? n)%Z && (n <=? 0)%Z); [reflexivity|].
    destruct (k =? 1)%Z; [apply starts_app; exact Hd|].
    apply starts_app, starts_take. exact Hd.
Qed.

Lemma toString_not_dash (sign : bool) (x : float) :
  (if sign then "-" else "") ++ JSFmt.toString x <> "-".
Proof.
  unfold JSFmt.toString.
  destruct (is_nan x); [destruct sign; discriminate|].
  destruct (PrimFloat.eqb x infinity); [destruct sign; discriminate|].
  destruct (PrimFloat.eqb x neg_infinity); [destruct sign; discriminate|].
  destruct (JSFmt.magnitude x) as [[[s m] e]|]; [|destruct sign; discriminate].
  destruct (m =? 0)%Z; [destruct sign; discriminate|].
  pose proof (positive_toString_starts (abs x) m e) as H.
  destruct (JSFmt.positive_toString (abs x) m e) as [|a r];
    [discriminate|].
  destruct sign, s; cbn; try discriminate.
  intros E. inversion E. subst. discriminate.
Qed.

Lemma fixed_digits (n : Z) (f : nat) :
  let ds := JSFmt.zeros (f + 1 - String.length (JSFmt.digits n))
            ++ JSFmt.digits n in
  all_digits ds = true
  /\ starts_with_digit ds = true
  /\ (f + 1 <= String.length ds)%nat.
Proof.
  intros ds. unfold ds. split; [|split].
  - rewrite all_digits_app, all_digits_zeros, all_digits_digits. reflexivity.
  - destruct (f + 1 - String.length (JSFmt.digits n))%nat; cbn;
      [apply digits_starts | reflexivity].
  - rewrite length_append, length_zeros. lia.
Qed.

Lemma toFixed_not_dash (x : float) (f : nat) : JSFmt.toFixed x f <> "-".
Proof.
  unfold JSFmt.toFixed.
  destruct (JSFmt.magnitude x) as [[[s m] e]|];
    [|exact (toString_not_dash false x)].
  destruct (JSFmt.fraction m e) as [num den].
  destruct (10 ^ 21 * den <=? num)%Z.
  - pose proof (toString_not_dash false (abs x)) as H. cbn [append] in H.
    destruct (JSFmt.toString (abs x)) as [|a r] eqn:E.
    + exfalso. pose proof (toString_not_dash true (abs x)) as H'.
      rewrite E in H'. apply H'. reflexivity.
    + destruct s; cbn; [discriminate | exact H].
  - destruct (JSFmt.scale10 (num, den) (Z.of_nat f)) as [num' den'].
    destruct (fixed_digits ((2 * num' + den') / (2 * den')) f)
      as (_ & Hs & Hl).
    set (ds := JSFmt.zeros _ ++ JSFmt.digits _) in *.
    destruct (String.length ds - f)%nat as [|j] eqn:J; [lia|].
    apply starts_not_dash. apply starts_app, starts_take. exact Hs.
Qed.

(** A dash is shown exactly for what is absent or falsy. *)
Lemma fixedOrDash_dash (v : option float) (f : nat) :
  fixedOrDash v f = "-" <-> JS.truthy_opt v = false.
Proof.
  unfold fixedOrDash. destruct v as [x|]; cbn [JS.truthy_opt].
  - destruct (JS.truthy x); split; intros H; try reflexivity;
      try discriminate.
    exfalso. exact (toFixed_not_dash x f H).
  - split; reflexivity.
Qed.

(** Below [10^21] the digits are not those of [toString]. *)
Lemma plain_fraction (x : float) :
  plain x ->
  exists s m e,
    JSFmt.magnitude x = Some (s, m, e)
    /\ (10 ^ 21 * snd (JSFmt.fraction m e) <=? fst (JSFmt.fraction m e))%Z
       = false.
Proof.
  unfold plain. intros H.
  destruct (FloatOrder.ltb_notnan _ _ H) as [Na Nb].
  rewrite (FloatOrder.ltb_ord _ _ Na Nb) in H.
  apply FloatOrder.is_nan_Prim2SF in Na.
  unfold ordZ in H. rewrite abs_spec in H, Na.
  replace (ord (Prim2SF 1e21)) with (10 ^ 21 * 2 ^ 1074)%Z in H
    by (vm_compute; reflexivity).
  unfold JSFmt.magnitude.
  pose proof (Prim2SF_valid x) as Hv.
  destruct (Prim2SF x) as [sz|si| |s m e].
  - exists false, 0%Z, 0%Z. split; reflexivity.
  - vm_compute in H. discriminate.
  - exfalso. apply Na. reflexivity.
  - exists s, (Zpos m), e. split; [reflexivity|].
    apply FloatOrder.valid_finite_bounds in Hv. destruct Hv as (He & _).
    cbn [SFabs ord cond_Zopp] in H. apply Z.ltb_lt in H.
    apply Z.leb_gt. unfold JSFmt.fraction.
    destruct (Z.leb_spec 0 e) as [E|E]; cbn [fst snd].
    + replace (e + 1074)%Z with (e + 1074)%Z in H by reflexivity.
      rewrite (Z.pow_add_r 2 e 1074) in H by lia.
      rewrite Z.mul_assoc in H.
      apply Z.mul_lt_mono_pos_r in H;
        [lia | apply Z.pow_pos_nonneg; lia].
    + replace (2 ^ 1074)%Z with (2 ^ (- e) * 2 ^ (e + 1074))%Z in H
        by (rewrite <- Z.pow_add_r by lia; f_equal; lia).
      rewrite Z.mul_assoc in H.
      apply Z.mul_lt_mono_pos_r in H;
        [exact H | apply Z.pow_pos_nonneg; lia].
Qed.

(** Below [10^21], [toFixed] writes fixed notation. *)
Lemma toFixed_fixed_text (x : float) (f : nat) :
  plain x -> fixed_text f (JSFmt.toFixed x f).
Proof.
  intros H. destruct (plain_fraction x H) as (s & m & e & Hm & Hb).
  unfold JSFmt.toFixed. rewrite Hm.
  destruct (JSFmt.fraction m e) as [num den]. cbn [fst snd] in Hb.
  rewrite Hb.
  destruct (JSFmt.scale10 (num, den) (Z.of_nat f)) as [num' den'].
  destruct (fixed_digits ((2 * num' + den') / (2 * den')) f)
    as (Ha & Hs & Hl).
  set (ds := JSFmt.zeros _ ++ JSFmt.digits _) in *.
  exists (if s then "-" else ""), (JSFmt.take (String.length ds - f) ds),
    (JSFmt.drop (String.length ds - f) ds).
  split; [reflexivity|].
  split; [destruct s; [right | left]; reflexivity|].
  split.
  { destruct (String.length ds - f)%nat as [|j] eqn:J; [lia|].
    apply starts_take. exact Hs. }
  split; [apply all_digits_take; exact Ha|].
  split; [apply all_digits_drop; exact Ha|].
  rewrite length_drop. lia.
Qed.

Lemma fixedOrDash_fixed_text (v : option float) (f : nat) (x : float) :
  v = Some x -> plain x ->
  fixedOrDash v f = "-" \/ fixed_text f (fixedOrDash v f).
Proof.
  intros -> H. unfold fixedOrDash.
  destruct (JS.truthy x); [right | left; reflexivity].
  exact (toFixed_fixed_text x f H).
Qed.

Local Close Scope string_scope.

Section DisplayFacts.

Variable Math_log : float -> float.

Local Open Scope string_scope.

Lemma fixedOrDash_truthy (x : float) (f : nat) :
  JS.truthy x = true -> fixedOrDash (Some x) f <> "-".
Proof.
  intros H E. apply fixedOrDash_dash in E. cbn [JS.truthy_opt] in E.
  rewrite H in E. discriminate.
Qed.

Lemma first_truthy_none (l : list (option float)) :
  first_truthy l = None <-> forallb (fun o => negb (JS.truthy_opt o)) l = true.
Proof.
  induction l as [|o l IH]; cbn [first_truthy forallb]; [tauto|].
  destruct (JS.truthy_opt o) eqn:E; cbn [negb andb].
  - split; [|discriminate]. intros ->. discriminate.
  - exact IH.
Qed.

(** X13: in the block of results of a submission, the rate used shows a dash
    exactly when the terminal-slope estimate is undefined and each of the two
    other candidates is absent, zero or NaN, and then the half-life and the
    extrapolated AUC show a dash too; the estimate shows a dash exactly when
    it is undefined, each other candidate exactly when it is absent, zero or
    NaN; the AUC, the peak, its time and the two doses never show a dash. *)
Theorem dashes_of_a_submission (st : State) :
  let r := calculate Math_log st in
  let d := display r in
  (shown_k d = "-"
   <-> k_est r = None /\ JS.truthy_opt (k_from_cl_vd r) = false
       /\ JS.truthy_opt (k_from_t12 r) = false)
  /\ (shown_k d = "-" -> shown_t_half d = "-" /\ shown_aucInf d = "-")
  /\ (shown_k_est d = "-" <-> k_est r = None)
  /\ (shown_k_from_cl_vd d = "-" <-> JS.truthy_opt (k_from_cl_vd r) = false)
  /\ (shown_k_from_t12 d = "-" <-> JS.truthy_opt (k_from_t12 r) = false)
  /\ shown_auc d <> "-" /\ shown_Cmax d <> "-" /\ shown_Tmax d <> "-"
  /\ shown_LD d <> "-" /\ shown_MD d <> "-".
Proof.
  intros r d.
  assert (Hest : JS.truthy_opt (k_est r) = false <-> k_est r = None).
  { destruct (k_est r) as [a|] eqn:Ha; cbn [JS.truthy_opt];
      [|split; reflexivity].
    unfold r in Ha. rewrite calculate_k_est in Ha.
    rewrite (FloatOrder.ltb_0_truthy _
               (estimateTerminalK_positive Math_log _ _ Ha)).
    split; discriminate. }
  assert (Hk : JS.truthy_opt (k r) = false <-> k r = None).
  { destruct (k r) as [a|] eqn:Ha; cbn [JS.truthy_opt];
      [|split; reflexivity].
    rewrite (calculate_k_truthy Math_log st a Ha). split; discriminate. }
  assert (Hd : shown_k d = "-" <-> k r = None).
  { unfold d, display. cbn [shown_k]. rewrite fixedOrDash_dash. exact Hk. }
  split; [|split; [|split; [|split; [|split]]]].
  - rewrite Hd. unfold r at 1. rewrite calculate_k, or_opt_chain. fold r.
    rewrite first_truthy_none. cbn [forallb]. rewrite <- Hest.
    destruct (JS.truthy_opt (k_est r)), (JS.truthy_opt (k_from_cl_vd r)),
      (JS.truthy_opt (k_from_t12 r)); cbn; intuition congruence.
  - intros H. apply Hd in H. unfold d, display.
    cbn [shown_t_half shown_aucInf]. rewrite !fixedOrDash_dash.
    unfold r. rewrite calculate_t_half, calculate_aucInf. fold r.
    rewrite H. split; reflexivity.
  - unfold d, display. cbn [shown_k_est]. rewrite fixedOrDash_dash.
    exact Hest.
  - unfold d, display. cbn [shown_k_from_cl_vd]. apply fixedOrDash_dash.
  - unfold d, display. cbn [shown_k_from_t12]. apply fixedOrDash_dash.
  - unfold d, display.
    cbn [shown_auc shown_Cmax shown_Tmax shown_LD shown_MD].
    repeat split; try apply toFixed_not_dash.
    exact (toString_not_dash false (Tmax r)).
Qed.

(** X14: when the text has two or more segments and is not well formed, the
    block of results shows the AUC as NaN and a dash for the extrapolated
    AUC. *)
Theorem malformed_text_is_shown_as_NaN (st : State) :
  wellFormed (pointsCsv st) = false ->
  (2 <= List.length (JS.split "," (pointsCsv st)))%nat ->
  let d := display (calculate Math_log st) in
  shown_auc d = "NaN" /\ shown_aucInf d = "-".
Proof.
  intros Hwf Hlen d.
  assert (Ha : auc (calculate Math_log st) = nan).
  { rewrite calculate_auc, calculate_points.
    exact (parsePoints_auc_nan _ Hwf Hlen). }
  unfold d, display. cbn [shown_auc shown_aucInf]. split.
  - rewrite Ha. reflexivity.
  - apply fixedOrDash_dash. rewrite calculate_aucInf, Ha.
    destruct (k (calculate Math_log st)) as [kv|]; [|reflexivity].
    destruct (JS.truthy kv); [|reflexivity].
    rewrite FloatSign.add_nan_l. reflexivity.
Qed.

(** X15: a result below 10^21 in magnitude is shown in fixed notation, without
    exponent: the AUC and the peak with three digits after the point, the two
    doses with one, and, where no dash is shown, the rates with four, the
    half-life with two and the extrapolated AUC with three. *)
Theorem shown_decimals (r : Results) :
  let d := display r in
  (plain (auc r) -> fixed_text 3 (shown_auc d))
  /\ (plain (Cmax r) -> fixed_text 3 (shown_Cmax d))
  /\ (plain (LD r) -> fixed_text 1 (shown_LD d))
  /\ (plain (MD r) -> fixed_text 1 (shown_MD d))
  /\ (forall x, k_from_t12 r = Some x -> plain x ->
      shown_k_from_t12 d = "-" \/ fixed_text 4 (shown_k_from_t12 d))
  /\ (forall x, k_from_cl_vd r = Some x -> plain x ->
      shown_k_from_cl_vd d = "-" \/ fixed_text 4 (shown_k_from_cl_vd d))
  /\ (forall x, k_est r = Some x -> plain x ->
      shown_k_est d = "-" \/ fixed_text 4 (shown_k_est d))
  /\ (forall x, k r = Some x -> plain x ->
      shown_k d = "-" \/ fixed_text 4 (shown_k d))
  /\ (forall x, t_half r = Some x -> plain x ->
      shown_t_half d = "-" \/ fixed_text 2 (shown_t_half d))
  /\ (forall x, aucInf r = Some x -> plain x ->
      shown_aucInf d = "-" \/ fixed_text 3 (shown_aucInf d)).
Proof.
  intros d. unfold d, display.
  cbn [shown_k_from_t12 shown_k_from_cl_vd shown_k_est shown_k shown_t_half
       shown_auc shown_aucInf shown_Cmax shown_LD shown_MD].
  repeat split; try apply toFixed_fixed_text;
    intros x; apply fixedOrDash_fixed_text.
Qed.

End DisplayFacts.

Lemma dashes_of_a_submission_witness :
  let st := run ref_log [ChangePointsCsv "0:0"; ChangeCl ""; ChangeT12 ""]
              initialState in
  let d := display (calculate ref_log st) in
  shown_k d = "-"%string /\ shown_t_half d = "-"%string
  /\ shown_aucInf d = "-"%string.
Proof.
  intros st d.
  destruct (dashes_of_a_submission ref_log st) as (Hk & Hd & _).
  assert (H : shown_k d = "-"%string)
    by (apply Hk; vm_compute; repeat split).
  split; [exact H | exact (Hd H)].
Defined.

Lemma shown_decimals_witness :
  let d := display (calculate ref_log initialState) in
  fixed_text 3 (shown_auc d) /\ fixed_text 1 (shown_LD d).
Proof.
  destruct (shown_decimals (calculate ref_log initialState))
    as (Ha & _ & Hl & _).
  split; [apply Ha | apply Hl]; vm_compute; reflexivity.
Defined.

Lemma malformed_text_is_shown_as_NaN_witness :
  let d := display (calculate ref_log
                      (setPointsCsv "0:0,1:2.1,2;3.5,4:2.2" initialState)) in
  shown_auc d = "NaN"%string /\ shown_aucInf d = "-"%string.
Proof.
  apply (malformed_text_is_shown_as_NaN ref_log
           (setPointsCsv "0:0,1:2.1,2;3.5,4:2.2" initialState)).
  - reflexivity.
  - vm_compute. lia.
Defined.

(** ** Signs of the results *)

Lemma truthy_not_negative_pos (x : float) :
  JS.truthy x = true -> not_negative x -> (0 <? x) = true.
Proof.
  unfold JS.truthy, not_negative. intros T N.
  apply andb_prop in T. destruct T as [Tx T0].
  destruct (FloatOrder.eqb_notnan _ _ Tx) as [Nx _].
  assert (N0 : is_nan 0 = false) by reflexivity.
  rewrite FloatOrder.ltb_ord in N |- * by assumption.
  rewrite FloatOrder.eqb_ord in T0 by assumption.
  rewrite FloatOrder.ordZ_0 in *.
  apply Z.ltb_ge in N. apply Z.ltb_lt.
  destruct (Z.eqb_spec (ordZ x) 0); [discriminate | lia].
Qed.

Lemma pos_not_negative (x : float) : (0 <? x) = true -> not_negative x.
Proof.
  intros H. destruct (FloatOrder.ltb_notnan _ _ H) as [N0 Nx].
  unfold not_negative.
  rewrite FloatOrder.ltb_ord in H |- * by assumption.
  rewrite FloatOrder.ordZ_0 in *. apply Z.ltb_lt in H. apply Z.ltb_ge. lia.
Qed.

Lemma leb_0_not_negative (x : float) : (0 <=? x) = true -> not_negative x.
Proof.
  intros H. destruct (FloatOrder.leb_notnan _ _ H) as [N0 Nx].
  unfold not_negative.
  rewrite FloatOrder.leb_ord in H by assumption.
  rewrite FloatOrder.ltb_ord by assumption.
  rewrite FloatOrder.ordZ_0 in *. apply Z.leb_le in H. apply Z.ltb_ge. lia.
Qed.

Lemma or_1_pos (x : float) : not_negative x -> (0 <? JS.or x 1) = true.
Proof.
  intros H. unfold JS.or. destruct (JS.truthy x) eqn:T; [|reflexivity].
  exact (truthy_not_negative_pos x T H).
Qed.

Lemma or_not_negative (x y : float) :
  not_negative x -> not_negative y -> not_negative (JS.or x y).
Proof. intros Hx Hy. unfold JS.or. destruct (JS.truthy x); assumption. Qed.

Lemma first_truthy_some (l : list (option float)) (x : float) :
  first_truthy l = Some x -> In (Some x) l /\ JS.truthy x = true.
Proof.
  induction l as [|o l IH]; cbn [first_truthy]; [discriminate|].
  destruct (JS.truthy_opt o) eqn:E.
  - intros ->. split; [left; reflexivity | exact E].
  - intros H. destruct (IH H) as [Hin T]. split; [right|]; assumption.
Qed.

Lemma lastConc_not_negative (pts : list Point) :
  Forall (fun p => not_negative (c p)) pts -> not_negative (lastConc pts).
Proof.
  destruct pts as [|x l] using rev_ind; intros H; [reflexivity|].
  rewrite lastConc_snoc. apply Forall_app in H. destruct H as [_ H].
  inversion H. assumption.
Qed.

Section SignFacts.

Variable Math_log : float -> float.

(** X16: when no parameter of the form is negative, every segment of the text
    has a numeric time and no segment has a negative concentration, no result
    is negative: the AUC, the peak, the two doses and the dosing rate are not
    below 0 (they may be NaN, the peak apart), the rate used is above 0 when
    there is one, and the candidate rates, the half-life and the extrapolated
    AUC are not below 0 when they are defined. *)
Theorem results_are_not_negative (st : State) :
  not_negative (Vd st) -> not_negative (Cl st) -> not_negative (t12 st) ->
  not_negative (F st) -> not_negative (tau st) ->
  not_negative (cssTarget st) ->
  Forall (fun p => timed p /\ not_negative (c p))
    (map parseSegment (JS.split "," (pointsCsv st))) ->
  let r := calculate Math_log st in
  not_negative (auc r) /\ not_negative (Cmax r)
  /\ not_negative (LD r) /\ not_negative (MD_rate r) /\ not_negative (MD r)
  /\ (forall x, k_from_t12 r = Some x -> not_negative x)
  /\ (forall x, k_from_cl_vd r = Some x -> not_negative x)
  /\ (forall x, k_est r = Some x -> (0 <? x) = true)
  /\ (forall x, k r = Some x -> (0 <? x) = true)
  /\ (forall x, t_half r = Some x -> not_negative x)
  /\ (forall x, aucInf r = Some x -> not_negative x).
Proof.
  intros HVd HCl Ht12 HF Htau Hcss Hseg r.
  assert (T : Forall timed (map parseSegment (JS.split "," (pointsCsv st))))
    by (eapply Forall_impl; [|exact Hseg]; cbn beta; tauto).
  assert (Hc : Forall (fun p => not_negative (c p)) (points r)).
  { unfold r. rewrite calculate_points.
    rewrite <- (parsePoints_perm (pointsCsv st)).
    eapply Forall_impl; [|exact Hseg]. cbn beta. tauto. }
  assert (Hs : StronglySorted time_le (points r)).
  { unfold r. rewrite calculate_points. exact (sort_sorted _ T). }
  assert (Hauc : not_negative (auc r)).
  { unfold r. rewrite calculate_auc. fold r.
    apply trapezoidalAUC_nonneg; assumption. }
  assert (Hk12 : forall x, k_from_t12 r = Some x -> not_negative x).
  { intros x. unfold r. rewrite calculate_k_from_t12.
    destruct (JS.truthy (t12 st)) eqn:E; [|discriminate].
    intros H. inversion H. subst.
    apply FloatSign.div_not_negative; [reflexivity|].
    exact (truthy_not_negative_pos _ E Ht12). }
  assert (Hkcv : forall x, k_from_cl_vd r = Some x -> not_negative x).
  { intros x. unfold r. rewrite calculate_k_from_cl_vd.
    destruct (JS.truthy (Cl st) && JS.truthy (Vd st)) eqn:E; [|discriminate].
    apply andb_prop in E. destruct E as [_ E].
    intros H. inversion H. subst.
    apply FloatSign.div_not_negative; [exact HCl|].
    exact (truthy_not_negative_pos _ E HVd). }
  assert (Hkest : forall x, k_est r = Some x -> (0 <? x) = true).
  { intros x. unfold r. rewrite calculate_k_est.
    apply estimateTerminalK_positive. }
  assert (Hk : forall x, k r = Some x -> (0 <? x) = true).
  { intros x. unfold r. rewrite calculate_k, or_opt_chain. fold r.
    intros H. apply first_truthy_some in H. destruct H as [Hin Tx].
    destruct Hin as [E|[E|[E|[]]]].
    - exact (Hkest x E).
    - exact (truthy_not_negative_pos x Tx (Hkcv x E)).
    - exact (truthy_not_negative_pos x Tx (Hk12 x E)). }
  assert (HF1 : (0 <? JS.or (F st) 1) = true) by exact (or_1_pos _ HF).
  assert (Hrate : not_negative (MD_rate r)).
  { unfold r. rewrite calculate_MD_rate. fold r.
    apply FloatSign.mul_not_negative; [exact Hcss|].
    apply or_not_negative; [exact HCl|].
    destruct (k r) as [kv|] eqn:Ek; [|reflexivity].
    destruct (JS.truthy kv && JS.truthy (Vd st)); [|reflexivity].
    apply FloatSign.mul_not_negative; [|exact HVd].
    apply pos_not_negative. exact (Hk kv eq_refl). }
  split; [exact Hauc|]. split.
  { pose proof (calculate_peak Math_log st) as Hp. fold r in Hp.
    destruct (peak_fold_inv (points r) (0, 0) []) as (H0 & _).
    - split; [reflexivity|]. split; [constructor | left; reflexivity].
    - cbn [app] in H0. fold (peak (points r)) in H0. rewrite <- Hp in H0.
      cbn [fst] in H0. exact (leb_0_not_negative _ H0). }
  split.
  { unfold r. rewrite calculate_LD.
    apply FloatSign.div_not_negative; [|exact HF1].
    apply FloatSign.mul_not_negative; assumption. }
  split; [exact Hrate|]. split.
  { unfold r. rewrite calculate_MD. fold r.
    apply FloatSign.div_not_negative; [|exact HF1].
    apply FloatSign.mul_not_negative; [exact Hrate|].
    apply pos_not_negative. exact (or_1_pos _ Htau). }
  split; [exact Hk12|]. split; [exact Hkcv|]. split; [exact Hkest|].
  split; [exact Hk|]. split.
  - intros x. unfold r. rewrite calculate_t_half. fold r.
    destruct (k r) as [kv|] eqn:Ek; [|discriminate].
    destruct (JS.truthy kv); [|discriminate].
    intros H. inversion H. subst.
    apply FloatSign.div_not_negative; [reflexivity|]. exact (Hk kv eq_refl).
  - intros x. unfold r. rewrite calculate_aucInf. fold r.
    destruct (k r) as [kv|] eqn:Ek; [|discriminate].
    destruct (JS.truthy kv); [|discriminate].
    intros H. inversion H. subst.
    apply FloatSign.add_not_negative; [exact Hauc|].
    apply FloatSign.div_not_negative; [|exact (Hk kv eq_refl)].
    apply lastConc_not_negative. exact Hc.
Qed.

End SignFacts.

Lemma results_are_not_negative_witness :
  let r := calculate ref_log initialState in
  not_negative (auc r) /\ not_negative (LD r) /\ not_negative (MD r).
Proof.
  assert (H : Forall (fun p => timed p /\ not_negative (c p))
                (map parseSegment (JS.split "," (pointsCsv initialState))))
    by (vm_compute; repeat constructor).
  destruct (results_are_not_negative ref_log initialState
              eq_refl eq_refl eq_refl eq_refl eq_refl eq_refl H)
    as (Ha & _ & Hl & _ & Hm & _).
  cbv zeta. repeat split; assumption.
Defined.

(** ** Concrete runs of the form *)

Example toNumber_of_field_texts :
  JSNum.toNumber "" = 0
  /\ JSNum.toNumber " 12.5 " = 12.5
  /\ JSNum.toNumber "1e3" = 1000
  /\ JSNum.toNumber "0x1f" = 31
  /\ is_nan (JSNum.toNumber "12px") = true
  /\ is_nan (JSNum.toNumber "1e") = true
  /\ JS.parseFloat "12px" = 12.
Proof. vm_compute. repeat split. Qed.

Example toString_of_numbers :
  JSFmt.toString 0.1 = "0.1"%string
  /\ JSFmt.toString 4 = "4"%string
  /\ JSFmt.toString (-2.5) = "-2.5"%string
  /\ JSFmt.toString 1e21 = "1e+21"%string
  /\ JSFmt.toString 1e-7 = "1e-7"%string
  /\ JSFmt.toString 0.000001 = "0.000001"%string
  /\ JSFmt.toString 123456789012345680000 = "123456789012345680000"%string
  /\ JSFmt.toString 5e-324 = "5e-324"%string
  /\ JSFmt.toString (0.1 + 0.2) = "0.30000000000000004"%string.
Proof. vm_compute. repeat split. Qed.

Example toFixed_of_numbers :
  JSFmt.toFixed 1.005 2 = "1.00"%string
  /\ JSFmt.toFixed 2.5 0 = "3"%string
  /\ JSFmt.toFixed (-1.5) 0 = "-2"%string
  /\ JSFmt.toFixed (-0.0001) 2 = "-0.00"%string
  /\ JSFmt.toFixed 133.33333333333334 1 = "133.3"%string
  /\ JSFmt.toFixed 1e21 2 = "1e+21"%string
  /\ JSFmt.toFixed nan 3 = "NaN"%string
  /\ JSFmt.toFixed infinity 1 = "Infinity"%string.
Proof. vm_compute. repeat split. Qed.

(** The block of results of the form as it is first shown, submitted. *)
Example display_of_the_initial_form :
  render (handle ref_log initialState Submit)
  = Some (display (calculate ref_log initialState))
  /\ render initialState = None
  /\ shown_k_from_t12 (display (calculate ref_log initialState))
     = "0.0866"%string
  /\ shown_k_from_cl_vd (display (calculate ref_log initialState))
     = "0.1000"%string
  /\ shown_Cmax (display (calculate ref_log initialState)) = "3.500"%string
  /\ shown_Tmax (display (calculate ref_log initialState)) = "2"%string
  /\ shown_LD (display (calculate ref_log initialState)) = "133.3"%string
  /\ shown_MD (display (calculate ref_log initialState)) = "160.0"%string.
Proof. vm_compute. repeat split. Qed.
